(** * RFM segmentation pipeline of [Project1.py], steps 10 to 12

    The script is a pandas program.  The part verified here is the RFM
    computation: the per-customer aggregation (lines 122-130), the quartile
    scoring (lines 135-137) and the segment labelling (lines 142-150).

    Data frames are lists of rows, columns are lists of values.  The pandas
    operations the script calls ([groupby], [agg], [max], [nunique], [sum],
    [rank], [qcut], [astype(str)], [apply]) are given their library meaning
    as executable functions.

    A number of type [Q] stands for the rational value of a float.  The
    two floating point operations on money, the product of line 49 and the
    sum of a group, round, and the sum depends on the order of its terms:
    the aggregation is therefore defined over an arbitrary product [mul] and
    an arbitrary sum [sum] of a list in the order of the frame
    ([aggregate_with], [pipeline_with]), and the statements about monetary
    values hold for every such pair, the operations of the machine among
    them.  [TotalPrice], [series_sum], [rfm] and [pipeline] are the instance
    with the exact product and sum; they serve the statements that depend on
    the order of the values and on the structure of the frames only, and the
    evaluation of the sample frames.  The quantiles of day counts and ranks
    are a value plus a multiple of a quarter of a difference, which binary
    floating point represents exactly.

    Timestamps and time differences are 64-bit counts of nanoseconds:
    line 122 and the subtraction of line 125 raise [OutOfBoundsDatetime]
    beyond them. *)

From Stdlib Require Import ZArith QArith List String Ascii Bool Lia Lqa.
From Stdlib Require Import Permutation Sorted DecimalString.
Import ListNotations.

Open Scope Z_scope.

(** ** The cleaned transaction frame [df] *)

(** One row of [df] after steps 3 to 5.  [InvoiceDate] is a timestamp in
    nanoseconds, as pandas stores it. *)
Record Transaction : Type := mkTransaction {
  CustomerID : Z;
  InvoiceNo : string;
  InvoiceDate : Z;
  Quantity : Z;
  UnitPrice : Q
}.

(** Line 49: [df['TotalPrice'] = df['Quantity'] * df['UnitPrice']], with the
    exact product; the script's product rounds to a float. *)
Definition TotalPrice (t : Transaction) : Q :=
  (inject_Z (Quantity t) * UnitPrice t)%Q.

(** ** Series operations *)

(** [pd.Timedelta(days=n)] in nanoseconds. *)
Definition Timedelta_days (n : Z) : Z := n * 86400000000000.

(** [Timedelta.days]: the whole days of a time difference (floor). *)
Definition days (td : Z) : Z := td / Timedelta_days 1.

(** [Series.max()]; [None] is [NaT]/[NaN], the maximum of an empty series. *)
Definition series_max (x : list Z) : option Z :=
  match x with
  | [] => None
  | a :: r => Some (fold_left Z.max r a)
  end.

(** [Series.unique()]: the distinct values in order of first appearance. *)
Fixpoint unique (x : list string) : list string :=
  match x with
  | [] => []
  | a :: r => a :: filter (fun b => negb (String.eqb b a)) (unique r)
  end.

(** [Series.nunique()]. *)
Definition nunique (x : list string) : Z := Z.of_nat (List.length (unique x)).

(** [Series.sum()] with exact addition; the script's sum rounds and depends
    on the order of the terms. *)
Definition series_sum (x : list Q) : Q := fold_left Qplus x 0%Q.

(** ** Exceptions *)

(** The [ValueError]s that lines 122-150 can raise: "Bin edges must be
    unique" and "Bin labels must be one fewer than the number of bin edges"
    from [pd.qcut], and [OutOfBoundsDatetime] (a subclass of [ValueError])
    from timestamp arithmetic. *)
Inductive ValueError : Type :=
  | Bin_edges_must_be_unique
  | Bin_labels_must_be_one_fewer
  | Out_of_bounds_datetime.

(** A computation that returns a value or raises. *)
Inductive result (A : Type) : Type :=
  | Ok (a : A)
  | Raise (e : ValueError).

Arguments Ok {A} a.
Arguments Raise {A} e.

Definition bind {A B : Type} (m : result A) (f : A -> result B) : result B :=
  match m with
  | Ok a => f a
  | Raise e => Raise e
  end.

Notation "x <- m ;; k" := (bind m (fun x => k))
  (at level 61, m at next level, right associativity).

(** ** Step 10: aggregation *)

(** [Timestamp.max] and [Timedelta.max]: timestamps and time differences
    are 64-bit counts of nanoseconds. *)
Definition Timestamp_max : Z := 9223372036854775807.
Definition Timedelta_max : Z := 9223372036854775807.

(** Line 122: [df['InvoiceDate'].max() + pd.Timedelta(days=1)].  The maximum
    of an empty column is [NaT] ([None]) and stays [NaT]; a sum beyond
    [Timestamp.max] raises [OutOfBoundsDatetime]. *)
Definition reference_date (df : list Transaction) : result (option Z) :=
  match series_max (map InvoiceDate df) with
  | None => Ok None
  | Some m =>
      if m + Timedelta_days 1 <=? Timestamp_max
      then Ok (Some (m + Timedelta_days 1))
      else Raise Out_of_bounds_datetime
  end.

(** The group keys of [groupby]: the distinct keys in ascending order. *)
Fixpoint insert_key (k : Z) (ks : list Z) : list Z :=
  match ks with
  | [] => [k]
  | h :: r =>
      if k <? h then k :: ks
      else if k =? h then ks
      else h :: insert_key k r
  end.

Definition group_keys (ks : list Z) : list Z := fold_right insert_key [] ks.

(** [df.groupby('CustomerID')]: each key with the rows that carry it, in
    the order of the frame. *)
Definition groupby (df : list Transaction) : list (Z * list Transaction) :=
  map (fun k => (k, filter (fun t => CustomerID t =? k) df))
      (group_keys (map CustomerID df)).

(** One row of the [rfm] frame (line 130 names the columns). *)
Record RFMRow : Type := mkRFMRow {
  rfm_CustomerID : Z;
  Recency : Z;
  Frequency : Z;
  Monetary : Q
}.

(** Line 125, the aggregation of the [InvoiceDate] column of a group:
    [lambda x: (reference_date - x.max()).days].  A group is never empty;
    the default only makes the function total. *)
Definition agg_InvoiceDate (reference_date : Z) (x : list Z) : Z :=
  match series_max x with
  | Some m => days (reference_date - m)
  | None => 0
  end.

(** Lines 124-128: [.agg({...}).reset_index()] for a given reference date,
    with the exact product and sum. *)
Definition agg (reference_date : Z) (g : Z * list Transaction) : RFMRow :=
  {| rfm_CustomerID := fst g;
     Recency := agg_InvoiceDate reference_date (map InvoiceDate (snd g));
     Frequency := nunique (map InvoiceNo (snd g));
     Monetary := series_sum (map TotalPrice (snd g)) |}.

Definition rfm_agg (reference_date : Z) (df : list Transaction) : list RFMRow :=
  map (agg reference_date) (groupby df).

(** Lines 122-130 once line 122 has returned and no date difference is out
    of bounds ([aggregate_with] below checks both), with the exact product
    and sum.  On an empty frame the reference date is [NaT], there is no
    group and the aggregation function is never called. *)
Definition rfm (df : list Transaction) : list RFMRow :=
  match series_max (map InvoiceDate df) with
  | Some m => rfm_agg (m + Timedelta_days 1) df
  | None => []
  end.

(** The subtraction of line 125 on the [InvoiceDate] column of a group:
    [reference_date - x.max()] raises [OutOfBoundsDatetime] when the result
    is too large for a [Timedelta]. *)
Definition recency_fits (reference_date : Z) (x : list Z) : bool :=
  match series_max x with
  | Some m => reference_date - m <=? Timedelta_max
  | None => true
  end.

Section Arithmetic.

(** The floating point operations of the script: the product of line 49,
    [Quantity * UnitPrice], and the sum that [groupby] accumulates over the
    rows of a group in the order of the frame.  A number stands for the
    rational value of a float. *)
Variable mul : Z -> Q -> Q.
Variable sum : list Q -> Q.

(** Lines 124-128 for a group. *)
Definition agg_with (reference_date : Z) (g : Z * list Transaction) : RFMRow :=
  {| rfm_CustomerID := fst g;
     Recency := agg_InvoiceDate reference_date (map InvoiceDate (snd g));
     Frequency := nunique (map InvoiceNo (snd g));
     Monetary := sum (map (fun t => mul (Quantity t) (UnitPrice t)) (snd g)) |}.

Definition rfm_agg_with (reference_date : Z) (df : list Transaction)
  : list RFMRow :=
  map (agg_with reference_date) (groupby df).

(** Lines 122-130. *)
Definition aggregate_with (df : list Transaction) : result (list RFMRow) :=
  ref <- reference_date df ;;
  match ref with
  | None => Ok []
  | Some r =>
      if forallb (fun g => recency_fits r (map InvoiceDate (snd g))) (groupby df)
      then Ok (rfm_agg_with r df)
      else Raise Out_of_bounds_datetime
  end.

End Arithmetic.

(** ** Step 11: quartile scoring *)

(** Ascending sort of a column of numbers. *)
Fixpoint insert_sorted (v : Q) (s : list Q) : list Q :=
  match s with
  | [] => [v]
  | h :: r => if Qle_bool v h then v :: s else h :: insert_sorted v r
  end.

Definition sort_values (x : list Q) : list Q := fold_right insert_sorted [] x.

(** [Series.quantile] at level [k/q] with linear interpolation (numpy's
    default): the virtual index is [(n-1) * k / q], the result lies between
    the two neighbouring order statistics. *)
Definition quantile (x : list Q) (q k : nat) : Q :=
  let s := sort_values x in
  let n := List.length s in
  let pos := ((n - 1) * k)%nat in
  let lo := (pos / q)%nat in
  let hi := Nat.min (lo + 1) (n - 1) in
  let gamma := Z.of_nat (pos mod q) # Pos.of_nat q in
  (nth lo s 0 + (nth hi s 0 - nth lo s 0) * gamma)%Q.

(** The bin edges of [qcut]: the quantiles at [np.linspace(0, 1, q + 1)]. *)
Definition bin_edges (x : list Q) (q : nat) : list Q :=
  map (quantile x q) (seq 0 (q + 1)).

(** [algos.unique] on the bin edges. *)
Fixpoint unique_edges (bins : list Q) : list Q :=
  match bins with
  | [] => []
  | a :: r => a :: filter (fun b => negb (Qeq_bool b a)) (unique_edges r)
  end.

Definition Qlt_bool (a b : Q) : bool := negb (Qle_bool b a).

(** [bins.searchsorted(v, side='left')] on ascending edges: the first index
    [i] with [v <= bins[i]]. *)
Fixpoint searchsorted_left (bins : list Q) (v : Q) : nat :=
  match bins with
  | [] => 0%nat
  | b :: r => if Qlt_bool b v then S (searchsorted_left r v) else 0%nat
  end.

(** The bin number of a value, with [include_lowest=True]:
    [ids[x == bins[0]] = 1]. *)
Definition bin_id (bins : list Q) (v : Q) : nat :=
  if Qeq_bool v (hd 0%Q bins) then 1%nat else searchsorted_left bins v.

(** [take_nd(labels, ids - 1)] under the [na_mask]: bin numbers [0] and
    [len(bins)] give [NaN], here [None]. *)
Definition take_label (labels : list Z) (nbins : nat) (id : nat) : option Z :=
  if ((id =? 0) || (id =? nbins))%nat then None
  else nth_error labels (id - 1).

(** [_bins_to_cuts(x, bins, labels, include_lowest=True,
    duplicates='raise')]. *)
Definition bins_to_cuts (x : list Q) (bins : list Q) (labels : list Z)
  : result (list (option Z)) :=
  if ((List.length (unique_edges bins) <? List.length bins)
      && negb (List.length bins =? 2))%nat
  then Raise Bin_edges_must_be_unique
  else if negb (List.length labels =? List.length bins - 1)%nat
  then Raise Bin_labels_must_be_one_fewer
  else Ok (map (fun v => take_label labels (List.length bins) (bin_id bins v)) x).

(** [pd.qcut(x, q, labels)].  The quantiles of an empty column are all
    [NaN], which [algos.unique] collapses to one edge. *)
Definition qcut (x : list Q) (q : nat) (labels : list Z)
  : result (list (option Z)) :=
  match x with
  | [] => Raise Bin_edges_must_be_unique
  | _ => bins_to_cuts x (bin_edges x q) labels
  end.

(** [Series.rank(method='first')]: one plus the number of smaller values,
    plus the number of equal values that appear earlier in the column. *)
Definition count (p : Z -> bool) (x : list Z) : Z :=
  Z.of_nat (List.length (filter p x)).

Fixpoint rank_first_aux (all seen rest : list Z) : list Z :=
  match rest with
  | [] => []
  | v :: r =>
      (1 + count (fun w => w <? v) all + count (fun w => w =? v) seen)
        :: rank_first_aux all (v :: seen) r
  end.

Definition rank_first (x : list Z) : list Z := rank_first_aux x [] x.

(** Line 135. *)
Definition R_Score (t : list RFMRow) : result (list (option Z)) :=
  qcut (map (fun r => inject_Z (Recency r)) t) 4 [4; 3; 2; 1].

(** Line 136. *)
Definition F_Score (t : list RFMRow) : result (list (option Z)) :=
  qcut (map inject_Z (rank_first (map Frequency t))) 4 [1; 2; 3; 4].

(** Line 137. *)
Definition M_Score (t : list RFMRow) : result (list (option Z)) :=
  qcut (map Monetary t) 4 [1; 2; 3; 4].

(** ** Step 12: segments *)

(** [astype(str)] on a score column: the decimal digits, ["nan"] for a
    missing score. *)
Definition astype_str (s : option Z) : string :=
  match s with
  | Some v => NilEmpty.string_of_int (Z.to_int v)
  | None => "nan"%string
  end.

(** Line 142. *)
Definition RFM_Segment (r f m : option Z) : string :=
  (astype_str r ++ astype_str f ++ astype_str m)%string.

(** [x[0] == c] on a non-empty string. *)
Definition first_char_is (x : string) (c : ascii) : bool :=
  match String.get 0 x with
  | Some d => Ascii.eqb d c
  | None => false
  end.

(** Lines 144-150, the function applied to each segment code. *)
Definition RFM_Level (x : string) : string :=
  if String.eqb x "444" then "Champions"%string
  else if first_char_is x "4" then "Loyal"%string
  else if first_char_is x "1" then "At Risk"%string
  else "Others"%string.

(** One row of the final [rfm] frame. *)
Record Segment : Type := mkSegment {
  seg_CustomerID : Z;
  seg_R_Score : option Z;
  seg_F_Score : option Z;
  seg_M_Score : option Z;
  seg_RFM_Segment : string;
  seg_RFM_Level : string
}.

Definition segment (row : RFMRow * (option Z * (option Z * option Z))) : Segment :=
  let '(c, (r, (f, m))) := row in
  {| seg_CustomerID := rfm_CustomerID c;
     seg_R_Score := r;
     seg_F_Score := f;
     seg_M_Score := m;
     seg_RFM_Segment := RFM_Segment r f m;
     seg_RFM_Level := RFM_Level (RFM_Segment r f m) |}.

(** Lines 135-150 on an aggregated frame. *)
Definition score_and_segment (t : list RFMRow) : result (list Segment) :=
  r <- R_Score t ;;
  f <- F_Score t ;;
  m <- M_Score t ;;
  Ok (map segment (combine t (combine r (combine f m)))).

(** Lines 122-150 for given floating point operations. *)
Definition pipeline_with (mul : Z -> Q -> Q) (sum : list Q -> Q)
  (df : list Transaction) : result (list Segment) :=
  t <- aggregate_with mul sum df ;;
  score_and_segment t.

(** Lines 122-150 with the exact product and sum. *)
Definition pipeline (df : list Transaction) : result (list Segment) :=
  pipeline_with (fun q p => inject_Z q * p)%Q series_sum df.

(** ** Step 3: cleaning *)

(** One row of the raw frame read from [Retail.csv].  The script names six
    columns; [raw_Other] stands for the remaining ones.  [None] is a missing
    value. *)
Record RawRow : Type := mkRawRow {
  raw_InvoiceNo : string;
  raw_Description : option string;
  raw_Quantity : Z;
  raw_InvoiceDate : string;
  raw_UnitPrice : Q;
  raw_CustomerID : option Z;
  raw_Other : list string
}.

(** [notnull()] on a cell. *)
Definition notnull {A : Type} (c : option A) : bool :=
  match c with
  | Some _ => true
  | None => false
  end.

Definition option_eqb {A : Type} (eqb : A -> A -> bool) (a b : option A) : bool :=
  match a, b with
  | Some x, Some y => eqb x y
  | None, None => true
  | _, _ => false
  end.

Fixpoint list_eqb {A : Type} (eqb : A -> A -> bool) (a b : list A) : bool :=
  match a, b with
  | [], [] => true
  | x :: a', y :: b' => eqb x y && list_eqb eqb a' b'
  | _, _ => false
  end.

(** Two rows are duplicates when all their cells are equal. *)
Definition row_eqb (a b : RawRow) : bool :=
  String.eqb (raw_InvoiceNo a) (raw_InvoiceNo b)
  && option_eqb String.eqb (raw_Description a) (raw_Description b)
  && (raw_Quantity a =? raw_Quantity b)
  && String.eqb (raw_InvoiceDate a) (raw_InvoiceDate b)
  && Qeq_bool (raw_UnitPrice a) (raw_UnitPrice b)
  && option_eqb Z.eqb (raw_CustomerID a) (raw_CustomerID b)
  && list_eqb String.eqb (raw_Other a) (raw_Other b).

(** [df.drop_duplicates()]: the first of each group of equal rows stays. *)
Fixpoint drop_duplicates (df : list RawRow) : list RawRow :=
  match df with
  | [] => []
  | a :: r => a :: filter (fun b => negb (row_eqb b a)) (drop_duplicates r)
  end.

(** Lines 27-33. *)
Definition clean (df : list RawRow) : list RawRow :=
  let df1 :=
    filter (fun r => notnull (raw_CustomerID r) && notnull (raw_Description r)) df in
  let df2 := drop_duplicates df1 in
  filter (fun r => (0 <? raw_Quantity r) && Qlt_bool 0 (raw_UnitPrice r)) df2.

(** Line 49 on a raw row. *)
Definition raw_TotalPrice (r : RawRow) : Q :=
  (inject_Z (raw_Quantity r) * raw_UnitPrice r)%Q.

(** ** Step 4: date features *)

(** Line 42: [dt.hour]. *)
Definition InvoiceHour (t : Transaction) : Z :=
  (InvoiceDate t / 3600000000000) mod 24.

(** Line 43: [dt.dayofweek], Monday is 0; the epoch is a Thursday. *)
Definition InvoiceDayofweek (t : Transaction) : Z :=
  (InvoiceDate t / Timedelta_days 1 + 3) mod 7.

(** ** Steps 8 and 9: revenue *)

(** [df.groupby('CustomerID')['TotalPrice'].sum()] with the exact product
    and sum. *)
Definition group_sum (df : list Transaction) : list (Z * Q) :=
  map (fun g => (fst g, series_sum (map TotalPrice (snd g)))) (groupby df).

(** [sort_values(ascending=False)] on a series with its index.  pandas
    does not fix the order of equal values; here a value goes before the
    values that are not larger. *)
Fixpoint insert_desc (e : Z * Q) (s : list (Z * Q)) : list (Z * Q) :=
  match s with
  | [] => [e]
  | h :: r => if Qle_bool (snd h) (snd e) then e :: s else h :: insert_desc e r
  end.

Definition sort_values_desc (s : list (Z * Q)) : list (Z * Q) :=
  fold_right insert_desc [] s.

(** Line 97. *)
Definition customer_revenue (df : list Transaction) : list (Z * Q) :=
  sort_values_desc (group_sum df).

(** Lines 106-112. *)
Definition categorise_spending (revenue : Q) : string :=
  if Qle_bool 1000 revenue then "High"%string
  else if Qle_bool 500 revenue then "Medium"%string
  else "Low"%string.

(** Line 114: [customer_revenue.apply(categorise_spending)]. *)
Definition customer_revenue_category (df : list Transaction) : list (Z * string) :=
  map (fun e => (fst e, categorise_spending (snd e))) (customer_revenue df).

(** [Series.map(mapping)]: the value of the mapping at a label, [None]
    ([NaN]) when the label is missing. *)
Fixpoint lookup {V : Type} (k : Z) (s : list (Z * V)) : option V :=
  match s with
  | [] => None
  | (k', v) :: r => if k =? k' then Some v else lookup k r
  end.

(** [fillna(d)] on a cell. *)
Definition fillna {V : Type} (d : V) (c : option V) : V :=
  match c with
  | Some v => v
  | None => d
  end.

(** Line 115. *)
Definition customer_category (df : list Transaction) : list string :=
  map (fun t =>
         fillna "Unknown"%string
           (lookup (CustomerID t) (customer_revenue_category df)))
      df.

Section RevenueArithmetic.

(** Lines 97 to 115 with the floating point product of line 49 and the
    floating point sum of line 97, as in [Arithmetic] above. *)
Variable mul : Z -> Q -> Q.
Variable sum : list Q -> Q.

Definition group_sum_with (df : list Transaction) : list (Z * Q) :=
  map (fun g => (fst g, sum (map (fun t => mul (Quantity t) (UnitPrice t)) (snd g))))
      (groupby df).

(** Line 97. *)
Definition customer_revenue_with (df : list Transaction) : list (Z * Q) :=
  sort_values_desc (group_sum_with df).

(** Line 114. *)
Definition customer_revenue_category_with (df : list Transaction)
  : list (Z * string) :=
  map (fun e => (fst e, categorise_spending (snd e))) (customer_revenue_with df).

(** Line 115. *)
Definition customer_category_with (df : list Transaction) : list string :=
  map (fun t =>
         fillna "Unknown"%string
           (lookup (CustomerID t) (customer_revenue_category_with df)))
      df.

End RevenueArithmetic.

(** ** Step 13: day names *)

(** Line 191. *)
Definition day_map : list (Z * string) :=
  [(0, "Mon"); (1, "Tue"); (2, "Wed"); (3, "Thu"); (4, "Fri"); (5, "Sat");
   (6, "Sun")]%string.

(** Line 192: [df['InvoiceDayofweek'].map(day_map)]. *)
Definition DayName (t : Transaction) : option string :=
  lookup (InvoiceDayofweek t) day_map.

(** Line 195, the [order] of the plot. *)
Definition day_order : list string :=
  ["Mon"; "Tue"; "Wed"; "Thu"; "Fri"; "Sat"; "Sun"]%string.

(** ** Notions used in the statements *)

(** The decimal digit of a score. *)
Definition digit (s : Z) : ascii := ascii_of_nat (48 + Z.to_nat s).

(** The columns that [qcut] scores: the column is not empty and its five
    quartile edges are distinct. *)
Definition scorable (x : list Q) : Prop :=
  x <> [] /\ List.length (unique_edges (bin_edges x 4)) = 5%nat.

(** Bin [b] of the edges: from edge [b-1] (excluded, except for the first
    bin) to edge [b] (included). *)
Definition in_quartile (bins : list Q) (b : nat) (v : Q) : Prop :=
  (nth (b - 1) bins 0 <= v)%Q /\ (v <= nth b bins 0)%Q /\
  ((2 <= b)%nat -> (nth (b - 1) bins 0 < v)%Q).

(** The error kinds of the design.  The script defines no exception of its
    own and checks nothing before scoring: each failure of lines 122-150 is
    the [ValueError] that [pd.qcut] raises. *)
Inductive ErrorKind : Type :=
  | EmptyInputError
  | DegenerateDistributionError
  | InvalidReferenceDateError.

(** The kind of a raised exception: non-unique bin edges mean that the
    column cannot support four quartile bins. *)
Definition error_kind (e : ValueError) : option ErrorKind :=
  match e with
  | Bin_edges_must_be_unique => Some DegenerateDistributionError
  | Bin_labels_must_be_one_fewer => None
  | Out_of_bounds_datetime => None
  end.

(** ** What the operations promise *)


Section Contracts.

Variable mul : Z -> Q -> Q.
Variable sum : list Q -> Q.



End Contracts.




(** A function applied to the value of a computation. *)
Definition result_map {A B : Type} (f : A -> B) (m : result A) : result B :=
  match m with
  | Ok a => Ok (f a)
  | Raise e => Raise e
  end.

(** The columns of the aggregated frame that hold no floating point
    number. *)
Definition key_columns (t : list RFMRow) : list (Z * Z * Z) :=
  map (fun r => (rfm_CustomerID r, Recency r, Frequency r)) t.

(** The number of distinct cut points of a column. *)
Definition distinct_cut_points (x : list Q) : nat :=
  List.length (unique_edges (bin_edges x 4)).

(** ** Sample frames *)

(** A transaction on day [d] (counted from the epoch). *)
Definition tx (c : Z) (i : string) (d : Z) (qty : Z) (p : Q) : Transaction :=
  mkTransaction c i (Timedelta_days d) qty p.

(** The example scenario with two customers. *)
Definition two_customers : list Transaction :=
  [tx 1 "inv1" 0 2 5; tx 1 "inv1" 0 1 5; tx 2 "inv2" 10 1 1000].

(** Five customers, one of them with two invoices on the same day. *)
Definition five_customers : list Transaction :=
  [tx 1 "a" 0 2 5; tx 2 "b" 3 1 5; tx 3 "c" 10 1 1000;
   tx 4 "d" 11 1 (7 # 2); tx 4 "e" 11 1 (7 # 2); tx 5 "f" 1 1 (7 # 2)].


(** A raw frame: a row, its duplicate, a row without customer and a
    return (negative quantity). *)
Definition raw_sample : list RawRow :=
  [mkRawRow "536365" (Some "LANTERN") 6 "12/1/2010 8:26" (17 # 5) (Some 17850) ["UK"];
   mkRawRow "536365" (Some "LANTERN") 6 "12/1/2010 8:26" (34 # 10) (Some 17850) ["UK"];
   mkRawRow "536366" (Some "MUG") 2 "12/1/2010 8:28" (5 # 2) None ["UK"];
   mkRawRow "C536379" (Some "Discount") (-1) "12/1/2010 9:41" (55 # 2) (Some 14527) ["UK"]]%string.

(** All rows of a population of four have the same recency and the same
    monetary value. *)
Definition four_alike : list RFMRow :=
  [mkRFMRow 1 3 1 9; mkRFMRow 2 3 1 9; mkRFMRow 3 3 1 9; mkRFMRow 4 3 1 9].

(** Six aggregated customers; the second and the third have the same
    frequency and the same monetary value. *)
Definition six_rows : list RFMRow :=
  [mkRFMRow 11 1 1 1; mkRFMRow 12 2 1 5; mkRFMRow 13 3 1 5;
   mkRFMRow 14 4 2 10; mkRFMRow 15 5 1 20; mkRFMRow 16 6 3 30].

Definition six_segments : list Segment :=
  match score_and_segment six_rows with
  | Ok segs => segs
  | Raise _ => []
  end.

(** * Properties *)

(** ** Aggregation *)

Section Aggregation.

Lemma insert_key_In (k x : Z) (ks : list Z) :
  In x (insert_key k ks) <-> x = k \/ In x ks.
Proof.
  induction ks as [|h r IH]; simpl.
  - intuition.
  - destruct (Z.ltb_spec k h); [simpl; intuition|].
    destruct (Z.eqb_spec k h); simpl; [subst; intuition|].
    rewrite IH. intuition.
Qed.

Lemma insert_key_sorted (k : Z) (ks : list Z) :
  StronglySorted Z.lt ks -> StronglySorted Z.lt (insert_key k ks).
Proof.
  induction 1 as [|h r Hs IH Hh]; simpl.
  - repeat constructor.
  - destruct (Z.ltb_spec k h).
    + constructor; [constructor; assumption|].
      constructor; [assumption|].
      rewrite Forall_forall in *. intros y Hy. specialize (Hh y Hy). lia.
    + destruct (Z.eqb_spec k h); [constructor; assumption|].
      constructor; [assumption|].
      rewrite Forall_forall in *. intros y Hy.
      apply insert_key_In in Hy. destruct Hy as [->|Hy]; [lia|auto].
Qed.

Lemma group_keys_In (x : Z) (ks : list Z) : In x (group_keys ks) <-> In x ks.
Proof.
  induction ks as [|k r IH]; simpl; [tauto|].
  rewrite insert_key_In, IH. intuition.
Qed.

Lemma group_keys_sorted (ks : list Z) : StronglySorted Z.lt (group_keys ks).
Proof.
  induction ks; simpl; [constructor | apply insert_key_sorted; assumption].
Qed.

Lemma sorted_lt_NoDup (ks : list Z) : StronglySorted Z.lt ks -> NoDup ks.
Proof.
  induction 1 as [|h r Hs IH Hh]; constructor; [|assumption].
  intro Hin. rewrite Forall_forall in Hh. specialize (Hh h Hin). lia.
Qed.

Lemma fold_max_spec (r : list Z) (a : Z) :
  let m := fold_left Z.max r a in
  (m = a \/ In m r) /\ a <= m /\ forall y, In y r -> y <= m.
Proof.
  revert a. induction r as [|b r IH]; intro a; simpl.
  - split; [auto|]. split; [lia|tauto].
  - destruct (IH (Z.max a b)) as (Hin & Hle & Hall).
    split; [|split].
    + destruct Hin as [Hm|Hm]; [|auto].
      rewrite Hm. destruct (Z.max_spec a b) as [[_ ->]|[_ ->]]; auto.
    + lia.
    + intros y [<-|Hy]; [lia|auto].
Qed.

Lemma series_max_spec (x : list Z) :
  x <> [] ->
  exists m, series_max x = Some m /\ In m x /\ forall y, In y x -> y <= m.
Proof.
  destruct x as [|a r]; [congruence|]. intros _.
  exists (fold_left Z.max r a). simpl.
  destruct (fold_max_spec r a) as (Hin & Hle & Hall).
  split; [reflexivity|]. split.
  - destruct Hin as [Hm|Hm]; [left; symmetry; exact Hm | right; exact Hm].
  - intros y [<-|Hy]; auto.
Qed.

Lemma unique_In (i : string) (x : list string) : In i (unique x) <-> In i x.
Proof.
  induction x as [|a r IH]; simpl; [tauto|].
  rewrite filter_In, IH.
  destruct (String.eqb_spec i a); simpl; intuition congruence.
Qed.

Lemma unique_NoDup (x : list string) : NoDup (unique x).
Proof.
  induction x as [|a r IH]; simpl; constructor.
  - rewrite filter_In. intros [_ H]. rewrite String.eqb_refl in H. discriminate.
  - apply NoDup_filter. assumption.
Qed.



Lemma days_spec (td : Z) :
  Timedelta_days (days td) <= td < Timedelta_days (days td + 1).
Proof.
  unfold days, Timedelta_days. rewrite Z.mul_1_l.
  assert (Hd : 0 < 86400000000000) by reflexivity.
  pose proof (Z.mul_div_le td _ Hd).
  pose proof (Z.mul_succ_div_gt td _ Hd).
  lia.
Qed.



(** The aggregation for any reference date and any floating point
    operations. *)
Lemma rfm_agg_with_keys (mul : Z -> Q -> Q) (sum : list Q -> Q) (ref : Z)
  (df : list Transaction) :
  map rfm_CustomerID (rfm_agg_with mul sum ref df)
    = group_keys (map CustomerID df).
Proof.
  unfold rfm_agg_with, groupby. rewrite !map_map. simpl. apply map_id.
Qed.

Lemma rfm_agg_with_row (mul : Z -> Q -> Q) (sum : list Q -> Q) (ref : Z)
  (df : list Transaction) (r : RFMRow) :
  In r (rfm_agg_with mul sum ref df) ->
  let mine := filter (fun t => CustomerID t =? rfm_CustomerID r) df in
  (exists t, In t mine /\
     (forall u, In u mine -> InvoiceDate u <= InvoiceDate t) /\
     86400000000000 * Recency r <= ref - InvoiceDate t
       < 86400000000000 * (Recency r + 1)) /\
  (exists ids, NoDup ids /\
     (forall i, In i ids <-> In i (map InvoiceNo mine)) /\
     Frequency r = Z.of_nat (List.length ids)) /\
  Monetary r = sum (map (fun t => mul (Quantity t) (UnitPrice t)) mine).
Proof.
  unfold rfm_agg_with, groupby. rewrite map_map, in_map_iff.
  intros (k & <- & Hk).
  cbn [agg_with rfm_CustomerID Recency Frequency Monetary fst snd].
  apply group_keys_In, in_map_iff in Hk. destruct Hk as (t0 & Hc & Ht0).
  set (mine := filter (fun t => CustomerID t =? k) df).
  assert (Hne : map InvoiceDate mine <> []).
  { assert (Hin : In t0 mine)
      by (apply filter_In; split; [assumption | apply Z.eqb_eq; assumption]).
    destruct mine; [destruct Hin | discriminate]. }
  split; [|split].
  - destruct (series_max_spec _ Hne) as (m & Hm & Hin & Hall).
    unfold agg_InvoiceDate. rewrite Hm.
    apply in_map_iff in Hin. destruct Hin as (t & <- & Ht).
    exists t. split; [assumption|]. split.
    + intros u Hu. apply Hall, in_map. assumption.
    + pose proof (days_spec (ref - InvoiceDate t)) as Hd.
      unfold Timedelta_days in Hd. lia.
  - exists (unique (map InvoiceNo mine)). split; [apply unique_NoDup|].
    split; [intro i; apply unique_In | reflexivity].
  - reflexivity.
Qed.

(** The exact product and sum give [rfm_agg]. *)
Lemma rfm_agg_exact (ref : Z) (df : list Transaction) :
  rfm_agg_with (fun q p => inject_Z q * p)%Q series_sum ref df = rfm_agg ref df.
Proof. reflexivity. Qed.


Lemma aggregate_with_Ok_inv (mul : Z -> Q -> Q) (sum : list Q -> Q)
  (df : list Transaction) (t : list RFMRow) :
  aggregate_with mul sum df = Ok t ->
  (df = [] /\ t = []) \/
  (exists m, series_max (map InvoiceDate df) = Some m /\
     m + Timedelta_days 1 <= Timestamp_max /\
     forallb (fun g => recency_fits (m + Timedelta_days 1) (map InvoiceDate (snd g)))
             (groupby df) = true /\
     t = rfm_agg_with mul sum (m + Timedelta_days 1) df).
Proof.
  unfold aggregate_with, reference_date.
  destruct (series_max (map InvoiceDate df)) as [m|] eqn:Hm.
  - destruct (Z.leb_spec (m + Timedelta_days 1) Timestamp_max) as [Hle|Hgt];
      [|discriminate].
    cbn [bind].
    destruct (forallb _ (groupby df)) eqn:Hf; [|discriminate].
    intro H. injection H as <-. right. exists m. auto.
  - cbn [bind]. intro H. injection H as <-. left. split; [|reflexivity].
    destruct df; [reflexivity | discriminate].
Qed.



End Aggregation.




(** ** Segment labelling *)

Lemma score_cases (s : Z) : 1 <= s <= 4 -> s = 1 \/ s = 2 \/ s = 3 \/ s = 4.
Proof. lia. Qed.

(** C2.  For scores between 1 and 4 the segment code is the three score
    digits in the order R, F, M, and the level is "Champions" for the code
    444, else "Loyal" when the R score is 4, else "At Risk" when the R score
    is 1, else "Others".  So (4,4,4) is "Champions" and (4,1,1) is
    "Loyal". *)
Theorem segment_code_and_level (c : RFMRow) (r f m : Z) :
  1 <= r <= 4 -> 1 <= f <= 4 -> 1 <= m <= 4 ->
  let s := segment (c, (Some r, (Some f, Some m))) in
  seg_RFM_Segment s
    = String (digit r) (String (digit f) (String (digit m) EmptyString)) /\
  seg_RFM_Level s
    = (if (r =? 4) && (f =? 4) && (m =? 4) then "Champions"%string
       else if r =? 4 then "Loyal"%string
       else if r =? 1 then "At Risk"%string
       else "Others"%string) /\
  seg_RFM_Level (segment (c, (Some 4, (Some 4, Some 4)))) = "Champions"%string /\
  seg_RFM_Level (segment (c, (Some 4, (Some 1, Some 1)))) = "Loyal"%string.
Proof.
  intros Hr Hf Hm.
  destruct (score_cases r Hr) as [->|[->|[->| ->]]];
  destruct (score_cases f Hf) as [->|[->|[->| ->]]];
  destruct (score_cases m Hm) as [->|[->|[->| ->]]];
  repeat split; reflexivity.
Qed.

Lemma segment_code_and_level_witness :
  seg_RFM_Segment
    (segment (mkRFMRow 7 3 1 (5 # 1), (Some 4, (Some 1, Some 1)))) = "411"%string /\
  seg_RFM_Level
    (segment (mkRFMRow 7 3 1 (5 # 1), (Some 4, (Some 1, Some 1)))) = "Loyal"%string.
Proof.
  destruct (segment_code_and_level (mkRFMRow 7 3 1 (5 # 1)) 4 1 1
              ltac:(lia) ltac:(lia) ltac:(lia)) as (H1 & H2 & _).
  split; [exact H1 | exact H2].
Defined.

(** ** Sorting and quantiles *)

Section Quantiles.

Lemma Qlt_bool_iff (a b : Q) : Qlt_bool a b = true <-> (a < b)%Q.
Proof.
  unfold Qlt_bool. rewrite negb_true_iff.
  split.
  - intro H. apply Qnot_le_lt. intro Hle.
    apply Qle_bool_iff in Hle. congruence.
  - intro H. destruct (Qle_bool b a) eqn:E; [|reflexivity].
    apply Qle_bool_iff in E. exfalso. apply (Qlt_not_le _ _ H E).
Qed.

Lemma Qlt_bool_false_iff (a b : Q) : Qlt_bool a b = false <-> (b <= a)%Q.
Proof.
  unfold Qlt_bool. rewrite negb_false_iff. apply Qle_bool_iff.
Qed.

Lemma Qeq_bool_false_iff (a b : Q) : Qeq_bool a b = false <-> ~ (a == b)%Q.
Proof.
  split.
  - apply Qeq_bool_neq.
  - intro H. destruct (Qeq_bool a b) eqn:E; [|reflexivity].
    apply Qeq_bool_eq in E. contradiction.
Qed.

Lemma insert_sorted_perm (v : Q) (s : list Q) :
  Permutation (insert_sorted v s) (v :: s).
Proof.
  induction s as [|h r IH]; simpl; [reflexivity|].
  destruct (Qle_bool v h); [reflexivity|].
  rewrite IH. apply perm_swap.
Qed.

Lemma sort_values_perm (x : list Q) : Permutation (sort_values x) x.
Proof.
  induction x as [|v r IH]; simpl; [reflexivity|].
  rewrite insert_sorted_perm. constructor. exact IH.
Qed.

Lemma sort_values_length (x : list Q) :
  List.length (sort_values x) = List.length x.
Proof. apply Permutation_length, sort_values_perm. Qed.

Lemma insert_sorted_sorted (v : Q) (s : list Q) :
  StronglySorted Qle s -> StronglySorted Qle (insert_sorted v s).
Proof.
  induction 1 as [|h r Hs IH Hh]; simpl.
  - repeat constructor.
  - destruct (Qle_bool v h) eqn:E.
    + apply Qle_bool_iff in E.
      constructor; [constructor; assumption|].
      constructor; [assumption|].
      rewrite Forall_forall in *. intros y Hy.
      apply Qle_trans with h; auto.
    + assert (Hhv : (h <= v)%Q).
      { apply Qlt_le_weak, Qnot_le_lt. intro Hle.
        apply Qle_bool_iff in Hle. congruence. }
      constructor; [assumption|].
      rewrite Forall_forall in *. intros y Hy.
      apply (Permutation_in _ (insert_sorted_perm v r)) in Hy.
      destruct Hy as [<-|Hy]; auto.
Qed.

Lemma sort_values_sorted (x : list Q) : StronglySorted Qle (sort_values x).
Proof.
  induction x; simpl; [constructor | apply insert_sorted_sorted; assumption].
Qed.

Lemma sorted_nth_le (s : list Q) :
  StronglySorted Qle s ->
  forall i j, (i <= j < List.length s)%nat -> (nth i s 0 <= nth j s 0)%Q.
Proof.
  induction 1 as [|h r Hs IH Hh]; intros i j Hij; simpl in Hij; [lia|].
  destruct i as [|i], j as [|j]; simpl; try lia.
  - apply Qle_refl.
  - rewrite Forall_forall in Hh. apply Hh, nth_In. lia.
  - apply IH. lia.
Qed.

(** The five quartile edges of a column with [q = 4]. *)
Lemma bin_edges_4 (x : list Q) :
  bin_edges x 4 =
    [quantile x 4 0; quantile x 4 1; quantile x 4 2; quantile x 4 3;
     quantile x 4 4].
Proof. reflexivity. Qed.

Lemma interpolate_between (a b g : Q) :
  (a <= b)%Q -> (0 <= g)%Q -> (g <= 1)%Q ->
  (a <= a + (b - a) * g)%Q /\ (a + (b - a) * g <= b)%Q.
Proof. intros Hab Hg0 Hg1. split; nra. Qed.

Lemma quarter_bounds (r : nat) :
  (r < 4)%nat -> (0 <= Z.of_nat r # 4)%Q /\ (Z.of_nat r # 4 <= 1)%Q.
Proof. intro Hr. unfold Qle. simpl. lia. Qed.

Lemma quantile_between (x : list Q) (k : nat) :
  x <> [] -> (k <= 4)%nat ->
  let s := sort_values x in
  (nth 0 s 0 <= quantile x 4 k)%Q /\
  (quantile x 4 k <= nth (List.length x - 1) s 0)%Q.
Proof.
  intros Hne Hk s. unfold quantile. fold s.
  pose proof (sort_values_length x) as Hlen. fold s in Hlen. rewrite Hlen.
  assert (Hn : (0 < List.length x)%nat) by (destruct x; [congruence | simpl; lia]).
  set (n := List.length x) in *.
  set (pos := ((n - 1) * k)%nat).
  assert (Hlo : (pos / 4 <= n - 1)%nat).
  { apply Nat.Div0.div_le_upper_bound. unfold pos. nia. }
  set (lo := (pos / 4)%nat) in *.
  set (hi := Nat.min (lo + 1) (n - 1)).
  assert (Hhi : (lo <= hi <= n - 1)%nat) by (unfold hi; lia).
  pose proof (sort_values_sorted x) as Hs. fold s in Hs.
  assert (H0 : (nth 0 s 0 <= nth lo s 0)%Q) by (apply sorted_nth_le; [assumption | lia]).
  assert (H1 : (nth lo s 0 <= nth hi s 0)%Q) by (apply sorted_nth_le; [assumption | lia]).
  assert (H2 : (nth hi s 0 <= nth (n - 1) s 0)%Q) by (apply sorted_nth_le; [assumption | lia]).
  assert (Hr : (pos mod 4 < 4)%nat) by (apply Nat.mod_upper_bound; lia).
  destruct (quarter_bounds _ Hr) as (Hg0 & Hg1).
  change (Pos.of_nat 4) with 4%positive.
  destruct (interpolate_between _ _ _ H1 Hg0 Hg1) as (Ha & Hb).
  split.
  - apply Qle_trans with (nth lo s 0%Q); assumption.
  - eapply Qle_trans; [exact Hb | exact H2].
Qed.

Lemma quantile_lowest (x : list Q) : (quantile x 4 0 == nth 0 (sort_values x) 0)%Q.
Proof.
  unfold quantile. rewrite Nat.mul_0_r.
  change (0 / 4)%nat with 0%nat. change (0 mod 4)%nat with 0%nat.
  change (Z.of_nat 0 # Pos.of_nat 4) with (0 # 4).
  setoid_replace (0 # 4) with 0%Q by reflexivity. ring.
Qed.

Lemma quantile_highest (x : list Q) :
  (quantile x 4 4 == nth (List.length x - 1) (sort_values x) 0)%Q.
Proof.
  unfold quantile. rewrite sort_values_length.
  rewrite Nat.div_mul by discriminate. rewrite Nat.Div0.mod_mul.
  replace (Nat.min (List.length x - 1 + 1) (List.length x - 1))
    with (List.length x - 1)%nat by lia.
  ring.
Qed.

(** Every value of the column lies between the lowest and the highest
    edge. *)
Lemma member_between_edges (x : list Q) (v : Q) :
  In v x -> (quantile x 4 0 <= v)%Q /\ (v <= quantile x 4 4)%Q.
Proof.
  intro Hin. rewrite quantile_lowest, quantile_highest.
  assert (Hs : In v (sort_values x))
    by (apply (Permutation_in _ (Permutation_sym (sort_values_perm x))); assumption).
  destruct (In_nth _ _ 0%Q Hs) as (i & Hi & <-).
  rewrite sort_values_length in Hi.
  pose proof (sort_values_sorted x) as Hsorted.
  split; apply sorted_nth_le; try assumption; rewrite sort_values_length; lia.
Qed.

Lemma searchsorted_left_spec (bins : list Q) (v : Q) :
  let i := searchsorted_left bins v in
  (i <= List.length bins)%nat /\
  (forall j, (j < i)%nat -> (nth j bins 0 < v)%Q) /\
  ((i < List.length bins)%nat -> (v <= nth i bins 0)%Q).
Proof.
  induction bins as [|b r IH]; simpl.
  - split; [lia|]. split; intros; lia.
  - destruct (Qlt_bool b v) eqn:E.
    + apply Qlt_bool_iff in E. destruct IH as (H1 & H2 & H3).
      split; [lia|]. split.
      * intros [|j] Hj; [assumption | apply H2; lia].
      * intro Hlt. apply H3. lia.
    + apply Qlt_bool_false_iff in E.
      split; [lia|]. split; [intros; lia | intros _; assumption].
Qed.

Lemma searchsorted_left_mono (bins : list Q) (v w : Q) :
  (v <= w)%Q -> (searchsorted_left bins v <= searchsorted_left bins w)%nat.
Proof.
  intro Hvw. induction bins as [|b r IH]; simpl; [lia|].
  destruct (Qlt_bool b v) eqn:E; [|lia].
  apply Qlt_bool_iff in E.
  assert (E' : Qlt_bool b w = true)
    by (apply Qlt_bool_iff; apply Qlt_le_trans with v; assumption).
  rewrite E'. lia.
Qed.

Lemma bin_edges_length (x : list Q) (q : nat) :
  List.length (bin_edges x q) = (q + 1)%nat.
Proof. unfold bin_edges. rewrite length_map, length_seq. reflexivity. Qed.

Lemma bin_id_lowest (x : list Q) (v : Q) :
  (v == quantile x 4 0)%Q -> bin_id (bin_edges x 4) v = 1%nat.
Proof.
  intro H. unfold bin_id. rewrite bin_edges_4. cbn [hd].
  apply Qeq_eq_bool in H. rewrite H. reflexivity.
Qed.

Lemma bin_id_above_lowest (x : list Q) (v : Q) :
  ~ (v == quantile x 4 0)%Q ->
  bin_id (bin_edges x 4) v = searchsorted_left (bin_edges x 4) v.
Proof.
  intro H. unfold bin_id. rewrite bin_edges_4. cbn [hd].
  apply Qeq_bool_false_iff in H. rewrite H. reflexivity.
Qed.

(** A value of the column falls in one of the four bins. *)
Lemma bin_id_range (x : list Q) (v : Q) :
  In v x -> (1 <= bin_id (bin_edges x 4) v <= 4)%nat.
Proof.
  intro Hin. destruct (member_between_edges x v Hin) as (Hlo & Hhi).
  destruct (Qeq_dec v (quantile x 4 0)) as [E|E].
  - rewrite (bin_id_lowest x v E). lia.
  - rewrite (bin_id_above_lowest x v E).
    destruct (searchsorted_left_spec (bin_edges x 4) v) as (H1 & H2 & H3).
    rewrite bin_edges_length in H1, H3.
    split.
    + rewrite bin_edges_4. cbn [searchsorted_left].
      assert (Hlt : Qlt_bool (quantile x 4 0) v = true).
      { apply Qlt_bool_iff. apply Qle_lt_or_eq in Hlo.
        destruct Hlo as [Hlo|Hlo]; [assumption|]. symmetry in Hlo. contradiction. }
      rewrite Hlt. lia.
    + destruct (Nat.eq_dec (searchsorted_left (bin_edges x 4) v) 5) as [E5|E5]; [|lia].
      exfalso. assert (H4 : (4 < searchsorted_left (bin_edges x 4) v)%nat) by lia.
      apply H2 in H4. rewrite bin_edges_4 in H4. cbn [nth] in H4.
      apply (Qlt_not_le _ _ H4 Hhi).
Qed.

Lemma bin_id_mono (x : list Q) (v w : Q) :
  In v x -> In w x -> (v <= w)%Q ->
  (bin_id (bin_edges x 4) v <= bin_id (bin_edges x 4) w)%nat.
Proof.
  intros Hv Hw Hvw.
  destruct (Qeq_dec v (quantile x 4 0)) as [E|E].
  - rewrite (bin_id_lowest x v E). apply bin_id_range. assumption.
  - rewrite (bin_id_above_lowest x v E).
    destruct (Qeq_dec w (quantile x 4 0)) as [F|F].
    + exfalso. apply E. apply Qle_antisym.
      * rewrite <- F. assumption.
      * apply member_between_edges. assumption.
    + rewrite (bin_id_above_lowest x w F).
      apply searchsorted_left_mono. assumption.
Qed.

Lemma take_label_inverted (id : nat) :
  (1 <= id <= 4)%nat -> take_label [4; 3; 2; 1] 5 id = Some (5 - Z.of_nat id).
Proof.
  intro H. destruct id as [|[|[|[|[|id]]]]]; try lia; reflexivity.
Qed.

Lemma take_label_direct (id : nat) :
  (1 <= id <= 4)%nat -> take_label [1; 2; 3; 4] 5 id = Some (Z.of_nat id).
Proof.
  intro H. destruct id as [|[|[|[|[|id]]]]]; try lia; reflexivity.
Qed.

Lemma unique_edges_length_le (bins : list Q) :
  (List.length (unique_edges bins) <= List.length bins)%nat.
Proof.
  induction bins as [|a r IH]; simpl; [lia|].
  pose proof (filter_length_le (fun b => negb (Qeq_bool b a)) (unique_edges r)).
  lia.
Qed.

Lemma qcut_scorable (x : list Q) (labels : list Z) :
  List.length labels = 4%nat -> scorable x ->
  qcut x 4 labels
    = Ok (map (fun v => take_label labels 5 (bin_id (bin_edges x 4) v)) x).
Proof.
  intros Hl (Hne & Hu). unfold qcut, bins_to_cuts.
  destruct x as [|a r]; [congruence|].
  rewrite Hu, bin_edges_length, Hl. reflexivity.
Qed.

Lemma qcut_not_scorable (x : list Q) (labels : list Z) :
  ~ scorable x -> qcut x 4 labels = Raise Bin_edges_must_be_unique.
Proof.
  intro Hns. unfold qcut, bins_to_cuts.
  destruct x as [|a r]; [reflexivity|].
  rewrite bin_edges_length.
  destruct (Nat.ltb_spec (List.length (unique_edges (bin_edges (a :: r) 4))) (4 + 1));
    [reflexivity|].
  exfalso. apply Hns. split; [discriminate|].
  pose proof (unique_edges_length_le (bin_edges (a :: r) 4)) as Hle.
  rewrite bin_edges_length in Hle. simpl in *. lia.
Qed.

Lemma scorable_dec (x : list Q) : scorable x \/ ~ scorable x.
Proof.
  unfold scorable. destruct x as [|a r].
  - right. intros [H _]. congruence.
  - destruct (Nat.eq_dec (List.length (unique_edges (bin_edges (a :: r) 4))) 5).
    + left. split; [discriminate | assumption].
    + right. tauto.
Qed.

Lemma qcut_Ok_inv (x : list Q) (labels : list Z) (s : list (option Z)) :
  List.length labels = 4%nat -> qcut x 4 labels = Ok s ->
  scorable x /\
  s = map (fun v => take_label labels 5 (bin_id (bin_edges x 4) v)) x.
Proof.
  intros Hl H. destruct (scorable_dec x) as [Hs|Hs].
  - split; [assumption|]. rewrite (qcut_scorable x labels Hl Hs) in H. congruence.
  - rewrite (qcut_not_scorable x labels Hs) in H. discriminate.
Qed.

End Quantiles.

(** ** Quartile bins *)

Section Bins.

Lemma bin_id_in_quartile (x : list Q) (v : Q) :
  In v x -> in_quartile (bin_edges x 4) (bin_id (bin_edges x 4) v) v.
Proof.
  intro Hin. pose proof (bin_id_range x v Hin) as Hr. revert Hr.
  destruct (member_between_edges x v Hin) as (Hlo & Hhi).
  assert (Hne : x <> []) by (destruct x; [destruct Hin | discriminate]).
  destruct (Qeq_dec v (quantile x 4 0)) as [E|E].
  - rewrite (bin_id_lowest x v E). intros _. unfold in_quartile.
    rewrite bin_edges_4. cbn [nth Nat.sub].
    split; [assumption|]. split; [|lia].
    rewrite E, quantile_lowest. apply quantile_between; [assumption | lia].
  - rewrite (bin_id_above_lowest x v E). intro Hr.
    destruct (searchsorted_left_spec (bin_edges x 4) v) as (H1 & H2 & H3).
    rewrite bin_edges_length in H3.
    set (b := searchsorted_left (bin_edges x 4) v) in *.
    assert (Hb : (nth (b - 1) (bin_edges x 4) 0 < v)%Q) by (apply H2; lia).
    split; [apply Qlt_le_weak; assumption|].
    split; [apply H3; lia | intros _; assumption].
Qed.

Lemma sorted_lt_nth (s : list Q) :
  StronglySorted Qlt s ->
  forall i j, (i < j < List.length s)%nat -> (nth i s 0 < nth j s 0)%Q.
Proof.
  induction 1 as [|h r Hs IH Hh]; intros i j Hij; simpl in Hij; [lia|].
  destruct i as [|i], j as [|j]; simpl; try lia.
  - rewrite Forall_forall in Hh. apply Hh, nth_In. lia.
  - apply IH. lia.
Qed.

Lemma sorted_lt_nth_le (s : list Q) :
  StronglySorted Qlt s ->
  forall i j, (i <= j < List.length s)%nat -> (nth i s 0 <= nth j s 0)%Q.
Proof.
  intros Hs i j Hij. destruct (Nat.eq_dec i j) as [->|Hne].
  - apply Qle_refl.
  - apply Qlt_le_weak, sorted_lt_nth; [assumption | lia].
Qed.

(** On strictly increasing edges the bin of a value is the only quartile
    that contains it. *)
Lemma bin_id_unique (bins : list Q) (b : nat) (v : Q) :
  StronglySorted Qlt bins -> (1 <= b < List.length bins)%nat ->
  in_quartile bins b v -> bin_id bins v = b.
Proof.
  intros Hs Hb (Hlo & Hhi & Hstrict). unfold bin_id.
  assert (H0 : hd 0%Q bins = nth 0 bins 0%Q) by (destruct bins; reflexivity).
  rewrite H0.
  destruct (Qeq_bool v (nth 0 bins 0%Q)) eqn:E.
  - apply Qeq_bool_eq in E.
    destruct (Nat.eq_dec b 1) as [->|Hb1]; [reflexivity|].
    exfalso. assert (H2 : (2 <= b)%nat) by lia. specialize (Hstrict H2).
    assert (Hle : (nth 0 bins 0 <= nth (b - 1) bins 0)%Q)
      by (apply sorted_lt_nth_le; [assumption | lia]).
    rewrite <- E in Hle. apply (Qlt_not_le _ _ Hstrict Hle).
  - apply Qeq_bool_false_iff in E.
    destruct (searchsorted_left_spec bins v) as (H1 & H2 & H3).
    set (i := searchsorted_left bins v) in *.
    assert (Hb1 : (nth (b - 1) bins 0 < v)%Q).
    { destruct (Nat.eq_dec b 1) as [->|Hb1]; [|apply Hstrict; lia].
      cbn [Nat.sub] in *. apply Qle_lt_or_eq in Hlo.
      destruct Hlo as [Hlo|Hlo]; [assumption|]. symmetry in Hlo. contradiction. }
    destruct (Nat.lt_trichotomy i b) as [Hlt|[Heq|Hgt]]; [|assumption|].
    + exfalso. assert (Hi : (i < List.length bins)%nat) by lia.
      specialize (H3 Hi).
      assert (Hle : (nth i bins 0 <= nth (b - 1) bins 0)%Q)
        by (apply sorted_lt_nth_le; [assumption | lia]).
      apply (Qlt_not_le _ _ Hb1). apply Qle_trans with (nth i bins 0%Q); assumption.
    + exfalso. specialize (H2 b Hgt). apply (Qlt_not_le _ _ H2 Hhi).
Qed.

Lemma filter_all (A : Type) (p : A -> bool) (l : list A) :
  (forall a, In a l -> p a = true) -> filter p l = l.
Proof.
  induction l as [|a r IH]; intro H; simpl; [reflexivity|].
  rewrite (H a (or_introl eq_refl)). f_equal. apply IH.
  intros b Hb. apply H. right. assumption.
Qed.

Lemma unique_edges_increasing (bins : list Q) :
  StronglySorted Qlt bins -> unique_edges bins = bins.
Proof.
  induction 1 as [|a r Hs IH Ha]; simpl; [reflexivity|].
  rewrite IH. f_equal. apply filter_all.
  intros b Hb. rewrite Forall_forall in Ha. specialize (Ha b Hb).
  apply negb_true_iff, Qeq_bool_false_iff. intro E. rewrite E in Ha.
  apply (Qlt_irrefl _ Ha).
Qed.

Lemma increasing_edges_scorable (x : list Q) :
  x <> [] -> StronglySorted Qlt (bin_edges x 4) -> scorable x.
Proof.
  intros Hne Hs. split; [assumption|].
  rewrite (unique_edges_increasing _ Hs). apply bin_edges_length.
Qed.

End Bins.

(** ** The score columns *)

Section Scores.

Lemma qcut_inverted_Ok (x : list Q) (s : list (option Z)) :
  qcut x 4 [4; 3; 2; 1] = Ok s ->
  scorable x /\
  s = map (fun v => Some (5 - Z.of_nat (bin_id (bin_edges x 4) v))) x.
Proof.
  intro H. apply qcut_Ok_inv in H; [|reflexivity].
  destruct H as (Hs & ->). split; [assumption|].
  apply map_ext_in. intros v Hv. apply take_label_inverted, bin_id_range, Hv.
Qed.

Lemma qcut_direct_Ok (x : list Q) (s : list (option Z)) :
  qcut x 4 [1; 2; 3; 4] = Ok s ->
  scorable x /\
  s = map (fun v => Some (Z.of_nat (bin_id (bin_edges x 4) v))) x.
Proof.
  intro H. apply qcut_Ok_inv in H; [|reflexivity].
  destruct H as (Hs & ->). split; [assumption|].
  apply map_ext_in. intros v Hv. apply take_label_direct, bin_id_range, Hv.
Qed.

Lemma qcut_Ok_length (x : list Q) (labels : list Z) (s : list (option Z)) :
  List.length labels = 4%nat -> qcut x 4 labels = Ok s ->
  List.length s = List.length x.
Proof.
  intros Hl H. apply qcut_Ok_inv in H; [|assumption].
  destruct H as (_ & ->). apply length_map.
Qed.

Lemma rank_first_aux_length (all seen rest : list Z) :
  List.length (rank_first_aux all seen rest) = List.length rest.
Proof.
  revert seen. induction rest as [|v r IH]; intro seen; simpl; [reflexivity|].
  rewrite IH. reflexivity.
Qed.

Lemma rank_first_length (x : list Z) :
  List.length (rank_first x) = List.length x.
Proof. apply rank_first_aux_length. Qed.

Lemma score_and_segment_Ok_inv (t : list RFMRow) (segs : list Segment) :
  score_and_segment t = Ok segs ->
  exists r f m,
    R_Score t = Ok r /\ F_Score t = Ok f /\ M_Score t = Ok m /\
    List.length r = List.length t /\ List.length f = List.length t /\
    List.length m = List.length t /\
    segs = map segment (combine t (combine r (combine f m))).
Proof.
  unfold score_and_segment.
  destruct (R_Score t) as [r|e] eqn:HR; [|discriminate].
  destruct (F_Score t) as [f|e] eqn:HF; [|discriminate].
  destruct (M_Score t) as [m|e] eqn:HM; [|discriminate].
  simpl. intro H. injection H as <-.
  exists r, f, m. repeat split.
  - apply qcut_Ok_length in HR; [|reflexivity]. rewrite HR. apply length_map.
  - apply qcut_Ok_length in HF; [|reflexivity].
    rewrite HF, length_map, rank_first_length. apply length_map.
  - apply qcut_Ok_length in HM; [|reflexivity]. rewrite HM. apply length_map.
Qed.

Lemma nth_error_combine (A B : Type) (l1 : list A) (l2 : list B) (i : nat)
  (a : A) (b : B) :
  nth_error l1 i = Some a -> nth_error l2 i = Some b ->
  nth_error (combine l1 l2) i = Some (a, b).
Proof.
  revert l2 i. induction l1 as [|h1 r1 IH]; intros [|h2 r2] [|i] H1 H2;
    simpl in *; try discriminate.
  - congruence.
  - apply IH; assumption.
Qed.

Lemma nth_error_defined (A : Type) (l : list A) (i : nat) :
  (i < List.length l)%nat -> exists a, nth_error l i = Some a.
Proof.
  intro H. apply nth_error_Some in H.
  destruct (nth_error l i) as [a|]; [exists a; reflexivity | congruence].
Qed.

Lemma segment_nth (t : list RFMRow) (r f m : list (option Z)) (i : nat)
  (A : RFMRow) :
  List.length r = List.length t -> List.length f = List.length t ->
  List.length m = List.length t -> nth_error t i = Some A ->
  exists ri fi mi,
    nth_error r i = Some ri /\ nth_error f i = Some fi /\
    nth_error m i = Some mi /\
    nth_error (map segment (combine t (combine r (combine f m)))) i
      = Some (segment (A, (ri, (fi, mi)))).
Proof.
  intros Hr Hf Hm HA.
  assert (Hi : (i < List.length t)%nat) by (apply nth_error_Some; congruence).
  destruct (nth_error_defined _ r i ltac:(lia)) as (ri & Hri).
  destruct (nth_error_defined _ f i ltac:(lia)) as (fi & Hfi).
  destruct (nth_error_defined _ m i ltac:(lia)) as (mi & Hmi).
  exists ri, fi, mi. repeat split; try assumption.
  apply map_nth_error. repeat apply nth_error_combine; assumption.
Qed.

Lemma sort_values_sorted_id (x : list Q) :
  StronglySorted Qle x -> sort_values x = x.
Proof.
  induction 1 as [|a r Hs IH Ha]; simpl; [reflexivity|].
  fold (sort_values r). rewrite IH.
  destruct r as [|h r']; simpl; [reflexivity|].
  rewrite Forall_forall in Ha.
  assert (E : Qle_bool a h = true) by (apply Qle_bool_iff, Ha; left; reflexivity).
  rewrite E. reflexivity.
Qed.

Lemma bin_edges_sorted_four (p0 p1 p2 p3 : Q) :
  (p0 <= p1)%Q -> (p1 <= p2)%Q -> (p2 <= p3)%Q ->
  bin_edges [p0; p1; p2; p3] 4 =
    [p0 + (p1 - p0) * (0 # 4); p0 + (p1 - p0) * (3 # 4);
     p1 + (p2 - p1) * (2 # 4); p2 + (p3 - p2) * (1 # 4);
     p3 + (p3 - p3) * (0 # 4)]%Q.
Proof.
  intros H01 H12 H23. rewrite bin_edges_4. unfold quantile.
  rewrite sort_values_sorted_id; [reflexivity|].
  repeat constructor; lra.
Qed.

(** Four strictly increasing values take the four labels in order. *)
Lemma qcut_four_increasing (p0 p1 p2 p3 : Q) (l1 l2 l3 l4 : Z) :
  (p0 < p1)%Q -> (p1 < p2)%Q -> (p2 < p3)%Q ->
  qcut [p0; p1; p2; p3] 4 [l1; l2; l3; l4]
    = Ok [Some l1; Some l2; Some l3; Some l4].
Proof.
  intros H01 H12 H23.
  assert (He := bin_edges_sorted_four p0 p1 p2 p3
                  (Qlt_le_weak _ _ H01) (Qlt_le_weak _ _ H12) (Qlt_le_weak _ _ H23)).
  assert (Hs : StronglySorted Qlt (bin_edges [p0; p1; p2; p3] 4)).
  { rewrite He. repeat constructor; lra. }
  rewrite qcut_scorable;
    [|reflexivity | apply increasing_edges_scorable; [discriminate | assumption]].
  cbn [map].
  rewrite (bin_id_unique _ 1 p0 Hs), (bin_id_unique _ 2 p1 Hs),
    (bin_id_unique _ 3 p2 Hs), (bin_id_unique _ 4 p3 Hs);
    try (rewrite bin_edges_length; lia);
    try (rewrite He; unfold in_quartile; cbn [nth Nat.sub];
         repeat split; try lra; intros; try lra; lia).
  reflexivity.
Qed.

End Scores.

(** C9.  In a scored population, a customer with fewer days since the last
    purchase than another one (their frequency and monetary values being
    equal) has an R score at least as high. *)
Theorem recency_score_antitone (t : list RFMRow) (segs : list Segment)
  (i j : nat) (A B : RFMRow) :
  score_and_segment t = Ok segs ->
  nth_error t i = Some A -> nth_error t j = Some B ->
  Frequency A = Frequency B -> (Monetary A == Monetary B)%Q ->
  Recency A < Recency B ->
  exists sa sb ra rb,
    nth_error segs i = Some sa /\ nth_error segs j = Some sb /\
    seg_CustomerID sa = rfm_CustomerID A /\
    seg_CustomerID sb = rfm_CustomerID B /\
    seg_R_Score sa = Some ra /\ seg_R_Score sb = Some rb /\ rb <= ra.
Proof.
  intros Hok HA HB _ _ Hlt.
  destruct (score_and_segment_Ok_inv t segs Hok)
    as (r & f & m & HR & _ & _ & Lr & Lf & Lm & ->).
  apply qcut_inverted_Ok in HR. destruct HR as (_ & Hr).
  set (x := map (fun r => inject_Z (Recency r)) t) in *.
  destruct (segment_nth t r f m i A Lr Lf Lm HA) as (ri & fi & mi & Hri & _ & _ & Hsa).
  destruct (segment_nth t r f m j B Lr Lf Lm HB) as (rj & fj & mj & Hrj & _ & _ & Hsb).
  assert (Ei : nth_error r i = Some (Some (5 - Z.of_nat (bin_id (bin_edges x 4) (inject_Z (Recency A)))))).
  { rewrite Hr. unfold x. rewrite map_map.
    apply (map_nth_error (fun row => Some (5 - Z.of_nat (bin_id _ (inject_Z (Recency row)))))).
    assumption. }
  assert (Ej : nth_error r j = Some (Some (5 - Z.of_nat (bin_id (bin_edges x 4) (inject_Z (Recency B)))))).
  { rewrite Hr. unfold x. rewrite map_map.
    apply (map_nth_error (fun row => Some (5 - Z.of_nat (bin_id _ (inject_Z (Recency row)))))).
    assumption. }
  set (bA := bin_id (bin_edges x 4) (inject_Z (Recency A))) in *.
  set (bB := bin_id (bin_edges x 4) (inject_Z (Recency B))) in *.
  rewrite Hri in Ei. injection Ei as Eri. rewrite Hrj in Ej. injection Ej as Erj.
  subst ri rj.
  exists (segment (A, (Some (5 - Z.of_nat bA), (fi, mi)))),
         (segment (B, (Some (5 - Z.of_nat bB), (fj, mj)))),
         (5 - Z.of_nat bA), (5 - Z.of_nat bB).
  split; [exact Hsa|]. split; [exact Hsb|].
  split; [reflexivity|]. split; [reflexivity|].
  split; [reflexivity|]. split; [reflexivity|].
  assert (Hmono : (bA <= bB)%nat).
  { apply bin_id_mono.
    - apply (in_map (fun r => inject_Z (Recency r))), (nth_error_In _ _ HA).
    - apply (in_map (fun r => inject_Z (Recency r))), (nth_error_In _ _ HB).
    - rewrite <- Zle_Qle. lia. }
  lia.
Qed.

Lemma recency_score_antitone_witness :
  exists sa sb ra rb,
    nth_error six_segments 1 = Some sa /\ nth_error six_segments 2 = Some sb /\
    seg_CustomerID sa = 12 /\ seg_CustomerID sb = 13 /\
    seg_R_Score sa = Some ra /\ seg_R_Score sb = Some rb /\ rb <= ra.
Proof.
  apply (recency_score_antitone six_rows six_segments 1 2
           (mkRFMRow 12 2 1 5) (mkRFMRow 13 3 1 5)).
  - vm_compute. reflexivity.
  - reflexivity.
  - reflexivity.
  - reflexivity.
  - reflexivity.
  - reflexivity.
Defined.

(** C3.  When recency scoring succeeds, a customer whose recency falls in
    quartile bin [b] (bin 1 holds the smallest values) gets the R score
    [5 - b], whereas the direct labelling used for frequency and monetary
    gives [b] on the same column.  Four customers with strictly increasing
    recency get the R scores 4, 3, 2, 1. *)
Theorem recency_score_inverted :
  (forall (t : list RFMRow) (r : list (option Z)),
     R_Score t = Ok r ->
     let x := map (fun row => inject_Z (Recency row)) t in
     exists d, qcut x 4 [1; 2; 3; 4] = Ok d /\
     forall i A, nth_error t i = Some A ->
       exists b, (1 <= b <= 4)%nat /\
         in_quartile (bin_edges x 4) b (inject_Z (Recency A)) /\
         nth_error r i = Some (Some (5 - Z.of_nat b)) /\
         nth_error d i = Some (Some (Z.of_nat b))) /\
  (forall c1 c2 c3 c4 : RFMRow,
     Recency c1 < Recency c2 -> Recency c2 < Recency c3 ->
     Recency c3 < Recency c4 ->
     R_Score [c1; c2; c3; c4] = Ok [Some 4; Some 3; Some 2; Some 1]).
Proof.
  split.
  - intros t r HR x. unfold R_Score in HR. fold x in HR.
    apply qcut_inverted_Ok in HR. destruct HR as (Hs & ->).
    exists (map (fun v => Some (Z.of_nat (bin_id (bin_edges x 4) v))) x).
    split.
    + rewrite (qcut_scorable x [1; 2; 3; 4] eq_refl Hs).
      f_equal. apply map_ext_in. intros v Hv.
      apply take_label_direct, bin_id_range, Hv.
    + intros i A HA.
      assert (Hin : In (inject_Z (Recency A)) x)
        by (apply (in_map (fun r => inject_Z (Recency r))), (nth_error_In _ _ HA)).
      assert (Hx : nth_error x i = Some (inject_Z (Recency A)))
        by (apply (map_nth_error (fun r => inject_Z (Recency r))); assumption).
      exists (bin_id (bin_edges x 4) (inject_Z (Recency A))).
      split; [apply bin_id_range; assumption|].
      split; [apply bin_id_in_quartile; assumption|].
      split.
      * apply (map_nth_error
                 (fun v => Some (5 - Z.of_nat (bin_id (bin_edges x 4) v)))).
        assumption.
      * apply (map_nth_error
                 (fun v => Some (Z.of_nat (bin_id (bin_edges x 4) v)))).
        assumption.
  - intros c1 c2 c3 c4 H12 H23 H34. unfold R_Score. cbn [map].
    apply qcut_four_increasing; rewrite <- Zlt_Qlt; assumption.
Qed.

Lemma recency_score_inverted_witness :
  R_Score six_rows
    = Ok [Some 4; Some 4; Some 3; Some 2; Some 1; Some 1] /\
  R_Score [mkRFMRow 1 3 1 1; mkRFMRow 2 7 1 1; mkRFMRow 3 8 1 1;
           mkRFMRow 4 20 1 1]
    = Ok [Some 4; Some 3; Some 2; Some 1] /\
  exists b,
    nth_error [Some 4; Some 4; Some 3; Some 2; Some 1; Some 1] 2
      = Some (Some (5 - Z.of_nat b)).
Proof.
  split; [vm_compute; reflexivity|].
  destruct recency_score_inverted as (H1 & H2).
  split.
  - apply H2; reflexivity.
  - destruct (H1 six_rows [Some 4; Some 4; Some 3; Some 2; Some 1; Some 1])
      as (d & _ & Hd).
    + vm_compute. reflexivity.
    + destruct (Hd 2%nat (mkRFMRow 13 3 1 5) eq_refl) as (b & _ & _ & Hb & _).
      exists b. exact Hb.
Defined.

(** ** Failures *)

Section Failures.


Lemma few_cut_points_not_scorable (x : list Q) :
  (distinct_cut_points x < 5)%nat -> ~ scorable x.
Proof. unfold distinct_cut_points. intros H (_ & Hs). lia. Qed.

Lemma unique_edges_In (b : Q) (bins : list Q) :
  In b (unique_edges bins) -> In b bins.
Proof.
  induction bins as [|a r IH]; simpl; [tauto|].
  intros [H|H]; [left; assumption|].
  apply filter_In in H. right. apply IH, H.
Qed.

Lemma filter_none (A : Type) (p : A -> bool) (l : list A) :
  (forall a, In a l -> p a = false) -> filter p l = [].
Proof.
  induction l as [|a r IH]; intro H; simpl; [reflexivity|].
  rewrite (H a (or_introl eq_refl)). apply IH.
  intros b Hb. apply H. right. assumption.
Qed.

Lemma constant_column_quantile (x : list Q) (c : Q) (k : nat) :
  x <> [] -> (forall v, In v x -> (v == c)%Q) -> (k <= 4)%nat ->
  (quantile x 4 k == c)%Q.
Proof.
  intros Hne Hc Hk.
  destruct (quantile_between x k Hne Hk) as (Hlo & Hhi).
  assert (Hn : (0 < List.length x)%nat) by (destruct x; [congruence | simpl; lia]).
  assert (Hs : forall i, (i < List.length x)%nat -> (nth i (sort_values x) 0 == c)%Q).
  { intros i Hi. apply Hc.
    apply (Permutation_in _ (sort_values_perm x)).
    apply nth_In. rewrite sort_values_length. assumption. }
  rewrite (Hs 0%nat) in Hlo by lia.
  rewrite (Hs (List.length x - 1)%nat) in Hhi by lia.
  apply Qle_antisym; assumption.
Qed.

(** A column whose values are all the same has a single cut point. *)
Lemma constant_column_cut_points (x : list Q) (c : Q) :
  x <> [] -> (forall v, In v x -> (v == c)%Q) -> distinct_cut_points x = 1%nat.
Proof.
  intros Hne Hc. unfold distinct_cut_points. rewrite bin_edges_4.
  cbn [unique_edges]. rewrite filter_none; [reflexivity|].
  intros b Hb.
  assert (Hin : In b (bin_edges x 4)).
  { rewrite bin_edges_4. right.
    repeat (apply filter_In in Hb; destruct Hb as (Hb & _)).
    repeat (destruct Hb as [Hb|Hb];
            [subst b; simpl; tauto
            | try (repeat (apply filter_In in Hb; destruct Hb as (Hb & _)))]).
    destruct Hb. }
  apply negb_false_iff, Qeq_eq_bool.
  unfold bin_edges in Hin. apply in_map_iff in Hin.
  destruct Hin as (k & <- & Hk). apply in_seq in Hk.
  rewrite !(constant_column_quantile x c) by (assumption || lia).
  reflexivity.
Qed.

End Failures.




(** C6 as the script has it.  The empty frame raises the bin-edge error at
    the recency scoring, the error of a degenerate column, and yields no
    segment. *)
Theorem empty_input_raises :
  rfm [] = [] /\
  R_Score [] = Raise Bin_edges_must_be_unique /\
  pipeline [] = Raise Bin_edges_must_be_unique /\
  pipeline [] = score_and_segment four_alike.
Proof. repeat split. Qed.

(** C6 as the spec has it fails: the exception of the empty frame is not of
    the empty-input kind. *)
Lemma empty_input_error_kind :
  exists e, pipeline [] = Raise e /\
    error_kind e = Some DegenerateDistributionError /\
    error_kind e <> Some EmptyInputError.
Proof.
  exists Bin_edges_must_be_unique. repeat split. discriminate.
Qed.

(** ** Ranks *)

Section Ranks.

Lemma count_cons (p : Z -> bool) (a : Z) (x : list Z) :
  count p (a :: x) = (if p a then 1 else 0) + count p x.
Proof. unfold count. simpl. destruct (p a); simpl List.length; lia. Qed.

Lemma count_nil (p : Z -> bool) : count p [] = 0.
Proof. reflexivity. Qed.

Lemma count_nonneg (p : Z -> bool) (x : list Z) : 0 <= count p x.
Proof. unfold count. lia. Qed.

Lemma count_firstn_S (p : Z -> bool) (x : list Z) (i : nat) :
  (i < List.length x)%nat ->
  count p (firstn (S i) x)
    = count p (firstn i x) + (if p (nth i x 0) then 1 else 0).
Proof.
  revert i. induction x as [|a r IH]; intros i Hi; simpl in Hi; [lia|].
  destruct i as [|i].
  - cbn [firstn nth]. rewrite count_cons, count_nil. lia.
  - change (firstn (S (S i)) (a :: r)) with (a :: firstn (S i) r).
    change (firstn (S i) (a :: r)) with (a :: firstn i r).
    rewrite !count_cons, IH by lia. simpl nth. lia.
Qed.

Lemma count_firstn_mono (p : Z -> bool) (x : list Z) (i j : nat) :
  (i <= j)%nat -> count p (firstn i x) <= count p (firstn j x).
Proof.
  induction 1 as [|j Hij IH]; [lia|].
  destruct (Nat.lt_ge_cases j (List.length x)) as [Hj|Hj].
  - rewrite (count_firstn_S p x j Hj). destruct (p (nth j x 0)); lia.
  - rewrite (firstn_all2 (n := S j)) by lia.
    rewrite (firstn_all2 (n := j)) in IH by lia. assumption.
Qed.

Lemma count_firstn_le (p : Z -> bool) (x : list Z) (i : nat) :
  count p (firstn i x) <= count p x.
Proof.
  destruct (Nat.le_ge_cases i (List.length x)) as [Hi|Hi].
  - rewrite <- (firstn_all x) at 2. apply count_firstn_mono. assumption.
  - rewrite firstn_all2 by assumption. lia.
Qed.

(** Values below [a] and values equal to [a] are all below a larger [b]. *)
Lemma count_below (a b : Z) (x : list Z) :
  a < b ->
  count (fun w => w <? a) x + count (fun w => w =? a) x
    <= count (fun w => w <? b) x.
Proof.
  intro Hab. induction x as [|w r IH].
  - unfold count. simpl. lia.
  - rewrite !count_cons.
    destruct (Z.ltb_spec w a), (Z.eqb_spec w a), (Z.ltb_spec w b); lia.
Qed.

Lemma count_below_or_equal (a : Z) (x : list Z) :
  count (fun w => w <? a) x + count (fun w => w =? a) x
    <= Z.of_nat (List.length x).
Proof.
  induction x as [|w r IH].
  - unfold count. simpl. lia.
  - rewrite !count_cons. simpl List.length.
    destruct (Z.ltb_spec w a), (Z.eqb_spec w a); lia.
Qed.

Lemma rank_first_aux_nth (all seen rest : list Z) (i : nat) :
  (i < List.length rest)%nat ->
  nth i (rank_first_aux all seen rest) 0
    = 1 + count (fun w => w <? nth i rest 0) all
        + count (fun w => w =? nth i rest 0) seen
        + count (fun w => w =? nth i rest 0) (firstn i rest).
Proof.
  revert seen i. induction rest as [|v r IH]; intros seen i Hi; simpl in Hi; [lia|].
  destruct i as [|i].
  - cbn [rank_first_aux nth firstn]. rewrite count_nil. lia.
  - simpl rank_first_aux. simpl nth. rewrite IH by lia.
    change (firstn (S i) (v :: r)) with (v :: firstn i r).
    rewrite !count_cons. lia.
Qed.

(** The rank of position [i]: one plus the number of smaller values plus
    the number of equal values at earlier positions. *)
Lemma rank_first_nth (x : list Z) (i : nat) :
  (i < List.length x)%nat ->
  nth i (rank_first x) 0
    = 1 + count (fun w => w <? nth i x 0) x
        + count (fun w => w =? nth i x 0) (firstn i x).
Proof.
  intro Hi. unfold rank_first. rewrite rank_first_aux_nth by assumption.
  rewrite count_nil. lia.
Qed.

Lemma count_equal_before (x : list Z) (i : nat) :
  (i < List.length x)%nat ->
  count (fun w => w =? nth i x 0) (firstn i x) + 1
    <= count (fun w => w =? nth i x 0) x.
Proof.
  intro Hi.
  pose proof (count_firstn_S (fun w => w =? nth i x 0) x i Hi) as HS.
  cbv beta in HS. rewrite Z.eqb_refl in HS.
  pose proof (count_firstn_le (fun w => w =? nth i x 0) x (S i)). lia.
Qed.

(** Ranks follow the values, and the positions among equal values. *)
Lemma rank_first_lt (x : list Z) (i j : nat) :
  (i < List.length x)%nat -> (j < List.length x)%nat ->
  nth i x 0 < nth j x 0 \/ (nth i x 0 = nth j x 0 /\ (i < j)%nat) ->
  nth i (rank_first x) 0 < nth j (rank_first x) 0.
Proof.
  intros Hi Hj H. rewrite !rank_first_nth by assumption.
  destruct H as [Hlt|(Heq & Hij)].
  - pose proof (count_below _ _ x Hlt).
    pose proof (count_equal_before x i Hi).
    pose proof (count_nonneg (fun w => w =? nth j x 0) (firstn j x)). lia.
  - rewrite <- Heq.
    pose proof (count_firstn_S (fun w => w =? nth i x 0) x i Hi) as HS.
    cbv beta in HS. rewrite Z.eqb_refl in HS.
    pose proof (count_firstn_mono (fun w => w =? nth i x 0) x (S i) j ltac:(lia)).
    lia.
Qed.

Lemma rank_first_range (x : list Z) (i : nat) :
  (i < List.length x)%nat ->
  1 <= nth i (rank_first x) 0 <= Z.of_nat (List.length x).
Proof.
  intro Hi. rewrite rank_first_nth by assumption.
  pose proof (count_nonneg (fun w => w <? nth i x 0) x).
  pose proof (count_nonneg (fun w => w =? nth i x 0) (firstn i x)).
  pose proof (count_equal_before x i Hi).
  pose proof (count_below_or_equal (nth i x 0) x). lia.
Qed.

Lemma rank_first_NoDup (x : list Z) : NoDup (rank_first x).
Proof.
  apply (NoDup_nth _ 0). rewrite rank_first_length. intros i j Hi Hj E.
  destruct (Z.lt_trichotomy (nth i x 0) (nth j x 0)) as [H|[H|H]].
  - pose proof (rank_first_lt x i j Hi Hj (or_introl H)). lia.
  - destruct (Nat.lt_trichotomy i j) as [Hij|[Hij|Hij]]; [|assumption|].
    + pose proof (rank_first_lt x i j Hi Hj (or_intror (conj H Hij))). lia.
    + pose proof (rank_first_lt x j i Hj Hi (or_intror (conj (eq_sym H) Hij))). lia.
  - pose proof (rank_first_lt x j i Hj Hi (or_introl H)). lia.
Qed.

(** The ranks [1 .. n]. *)
Lemma rank_first_perm (x : list Z) :
  Permutation (rank_first x) (map Z.of_nat (seq 1 (List.length x))).
Proof.
  apply NoDup_Permutation_bis.
  - apply rank_first_NoDup.
  - rewrite length_map, length_seq, rank_first_length. lia.
  - intros r Hr. destruct (In_nth _ _ 0 Hr) as (i & Hi & <-).
    rewrite rank_first_length in Hi.
    pose proof (rank_first_range x i Hi) as Hrange.
    apply in_map_iff. exists (Z.to_nat (nth i (rank_first x) 0)).
    split; [lia|]. apply in_seq. lia.
Qed.

End Ranks.

(** ** Quartiles of the ranks *)

Section RankQuartiles.

Lemma sorted_perm_eq (s1 : list Q) :
  forall s2, Permutation s1 s2 ->
  StronglySorted Qle s1 -> StronglySorted Qle s2 ->
  (forall a b, In a s1 -> In b s1 -> (a == b)%Q -> a = b) ->
  s1 = s2.
Proof.
  induction s1 as [|a r1 IH]; intros s2 Hp H1 H2 Hu.
  - apply Permutation_nil in Hp. congruence.
  - destruct s2 as [|b r2]; [apply Permutation_sym, Permutation_nil in Hp; discriminate|].
    inversion H1 as [|? ? Hr1 Ha]; subst. inversion H2 as [|? ? Hr2 Hb]; subst.
    rewrite Forall_forall in Ha, Hb.
    assert (Hba : (b <= a)%Q).
    { assert (Hin : In a (b :: r2)) by (apply (Permutation_in _ Hp); left; reflexivity).
      destruct Hin as [->|Hin]; [apply Qle_refl | apply Hb, Hin]. }
    assert (Hbin : In b (a :: r1))
      by (apply (Permutation_in _ (Permutation_sym Hp)); left; reflexivity).
    assert (Hab : (a <= b)%Q).
    { destruct Hbin as [->|Hin]; [apply Qle_refl | apply Ha, Hin]. }
    assert (E : a = b).
    { apply Hu; [left; reflexivity | assumption | apply Qle_antisym; assumption]. }
    subst b. f_equal. apply IH; try assumption.
    + apply (Permutation_cons_inv Hp).
    + intros u v Hu' Hv'. apply Hu; right; assumption.
Qed.

Lemma naturals_sorted (start len : nat) :
  StronglySorted Qle (map inject_Z (map Z.of_nat (seq start len))).
Proof.
  revert start. induction len as [|len IH]; intro start; simpl; constructor.
  - apply IH.
  - rewrite Forall_forall. intros v Hv.
    rewrite map_map in Hv. apply in_map_iff in Hv.
    destruct Hv as (n & <- & Hn). apply in_seq in Hn.
    rewrite <- Zle_Qle. lia.
Qed.

(** The sorted ranks of a column of [n] values are [1 .. n]. *)
Lemma rank_first_sorted (x : list Z) :
  sort_values (map inject_Z (rank_first x))
    = map inject_Z (map Z.of_nat (seq 1 (List.length x))).
Proof.
  apply sorted_perm_eq.
  - rewrite sort_values_perm. apply Permutation_map, rank_first_perm.
  - apply sort_values_sorted.
  - apply naturals_sorted.
  - intros a b Ha Hb E.
    apply (Permutation_in _ (sort_values_perm _)), in_map_iff in Ha.
    apply (Permutation_in _ (sort_values_perm _)), in_map_iff in Hb.
    destruct Ha as (za & <- & _), Hb as (zb & <- & _).
    apply (proj1 (inject_Z_injective za zb)) in E. congruence.
Qed.

Lemma naturals_nth (n k : nat) :
  (k < n)%nat ->
  nth k (map inject_Z (map Z.of_nat (seq 1 n))) 0%Q
    = inject_Z (Z.of_nat (1 + k)).
Proof.
  intro Hk. rewrite map_map.
  rewrite (nth_indep _ 0%Q (inject_Z (Z.of_nat 0)))
    by (rewrite length_map, length_seq; assumption).
  rewrite (map_nth (fun i => inject_Z (Z.of_nat i))).
  rewrite seq_nth by assumption. reflexivity.
Qed.

Lemma interpolate_naturals (lo hi r pos m : nat) :
  (pos = 4 * lo + r)%nat -> (r < 4)%nat -> (pos <= 4 * m)%nat ->
  hi = Nat.min (lo + 1) m ->
  (inject_Z (Z.of_nat (1 + lo))
   + (inject_Z (Z.of_nat (1 + hi)) - inject_Z (Z.of_nat (1 + lo)))
     * (Z.of_nat r # 4)
   == (4 + Z.of_nat pos) # 4)%Q.
Proof.
  intros Hpos Hr Hm Hhi.
  assert (Hcase : (hi = lo + 1)%nat \/ (hi = lo /\ r = 0)%nat) by lia.
  unfold Qminus. unfold Qeq, Qplus, Qopp, Qmult, inject_Z. cbn [Qnum Qden].
  change (Z.pos (1 * 1 * 4)) with 4.
  change (Z.pos (1 * (1 * 1 * 4))) with 4.
  destruct Hcase as [->|(-> & ->)]; subst pos; lia.
Qed.

(** The cut points of the ranks of [n] values: [1 + (n-1) k / 4]. *)
Lemma rank_quantile (x : list Z) (k : nat) :
  x <> [] -> (k <= 4)%nat ->
  (quantile (map inject_Z (rank_first x)) 4 k
   == (4 + Z.of_nat ((List.length x - 1) * k)) # 4)%Q.
Proof.
  intros Hne Hk.
  assert (Hn : (0 < List.length x)%nat) by (destruct x; [congruence | simpl; lia]).
  unfold quantile. rewrite rank_first_sorted.
  rewrite length_map, length_map, length_seq.
  set (n := List.length x) in *.
  set (pos := ((n - 1) * k)%nat).
  assert (Hdm := Nat.div_mod_eq pos 4).
  assert (Hr : (pos mod 4 < 4)%nat) by (apply Nat.mod_upper_bound; lia).
  assert (Hpos : (pos <= 4 * (n - 1))%nat) by (unfold pos; nia).
  set (lo := (pos / 4)%nat) in *. set (r := (pos mod 4)%nat) in *.
  rewrite !naturals_nth by lia.
  change (Pos.of_nat 4) with 4%positive.
  apply (interpolate_naturals lo _ r pos (n - 1)); try assumption; reflexivity.
Qed.

Lemma rank_edges_increasing (x : list Z) :
  (2 <= List.length x)%nat ->
  StronglySorted Qlt (bin_edges (map inject_Z (rank_first x)) 4).
Proof.
  intro Hn. assert (Hne : x <> []) by (destruct x; [simpl in Hn; lia | discriminate]).
  rewrite bin_edges_4.
  repeat constructor;
    rewrite !(rank_quantile x) by (assumption || lia);
    unfold Qlt; cbn [Qnum Qden]; lia.
Qed.

Lemma rank_column_scorable (x : list Z) :
  (2 <= List.length x)%nat -> scorable (map inject_Z (rank_first x)).
Proof.
  intro Hn. apply increasing_edges_scorable.
  - assert (Hl := rank_first_length x).
    destruct (rank_first x); [simpl in Hl; lia | discriminate].
  - apply rank_edges_increasing. assumption.
Qed.

End RankQuartiles.

(** ** Frequency scoring *)

Section FrequencyScore.

Lemma F_Score_Ok (t : list RFMRow) :
  (2 <= List.length t)%nat ->
  let ranks := rank_first (map Frequency t) in
  F_Score t
    = Ok (map (fun rk =>
                 Some (Z.of_nat
                         (bin_id (bin_edges (map inject_Z ranks) 4) (inject_Z rk))))
              ranks).
Proof.
  intros Hn ranks. unfold F_Score. fold ranks.
  rewrite qcut_scorable;
    [|reflexivity | apply rank_column_scorable; rewrite length_map; assumption].
  rewrite map_map. f_equal. apply map_ext_in. intros rk Hrk.
  apply take_label_direct, bin_id_range, in_map, Hrk.
Qed.

Lemma nth_error_nth_map (t : list RFMRow) (i : nat) (A : RFMRow) :
  nth_error t i = Some A ->
  (i < List.length t)%nat /\ nth i (map Frequency t) 0 = Frequency A.
Proof.
  intro H. split; [apply nth_error_Some; congruence|].
  rewrite (nth_indep _ 0 (Frequency A))
    by (rewrite length_map; apply nth_error_Some; congruence).
  rewrite map_nth. f_equal. apply nth_error_nth. assumption.
Qed.

(** The quartile of a rank, in integers. *)
Lemma rank_quartile_bounds (x : list Z) (rk : Z) (b : nat) :
  (2 <= List.length x)%nat -> (1 <= b <= 4)%nat ->
  in_quartile (bin_edges (map inject_Z (rank_first x)) 4) b (inject_Z rk) ->
  let n1 := Z.of_nat (List.length x) - 1 in
  (Z.of_nat b - 1) * n1 <= 4 * (rk - 1) <= Z.of_nat b * n1 /\
  (2 <= Z.of_nat b -> (Z.of_nat b - 1) * n1 < 4 * (rk - 1)).
Proof.
  intros Hn Hb (Hlo & Hhi & Hstrict) n1.
  assert (Hne : x <> []) by (destruct x; [simpl in Hn; lia | discriminate]).
  rewrite bin_edges_4 in Hlo, Hhi, Hstrict.
  assert (Hcases : b = 1%nat \/ b = 2%nat \/ b = 3%nat \/ b = 4%nat) by lia.
  destruct Hcases as [->|[->|[->| ->]]]; cbn [nth Nat.sub] in Hlo, Hhi, Hstrict;
    rewrite !(rank_quantile x) in Hlo, Hhi, Hstrict by (assumption || lia);
    unfold Qle, Qlt, inject_Z in Hlo, Hhi, Hstrict;
    cbn [Qnum Qden] in Hlo, Hhi, Hstrict; subst n1;
    (split; [lia|]); intro H2; try lia;
    assert (Hs := Hstrict ltac:(lia)); lia.
Qed.

Lemma constant_column_raises (x : list Q) (c : Q) (labels : list Z) :
  x <> [] -> (forall v, In v x -> (v == c)%Q) ->
  qcut x 4 labels = Raise Bin_edges_must_be_unique.
Proof.
  intros Hne Hc. apply qcut_not_scorable, few_cut_points_not_scorable.
  rewrite (constant_column_cut_points x c Hne Hc). lia.
Qed.

End FrequencyScore.

(** C4.  On a population of at least four customers the frequency values
    are first replaced by their ranks: the ranks are the numbers 1 to N,
    pairwise distinct, ordered by frequency and, among equal frequencies, by
    position.  The cut is then made on the ranks and always yields a score:
    the score of a customer is the quartile of its rank between 1 and N,
    from 1 for the lowest quartile to 4 for the highest. *)
Theorem frequency_rank_then_quartile (t : list RFMRow) :
  (4 <= List.length t)%nat ->
  let ranks := rank_first (map Frequency t) in
  let n1 := Z.of_nat (List.length t) - 1 in
  NoDup ranks /\
  Permutation ranks (map Z.of_nat (seq 1 (List.length t))) /\
  (forall i j A B,
     nth_error t i = Some A -> nth_error t j = Some B ->
     Frequency A < Frequency B \/ (Frequency A = Frequency B /\ (i < j)%nat) ->
     nth i ranks 0 < nth j ranks 0) /\
  exists f,
    F_Score t = qcut (map inject_Z ranks) 4 [1; 2; 3; 4] /\
    F_Score t = Ok f /\ List.length f = List.length t /\
    forall i, (i < List.length t)%nat ->
      exists s, 1 <= s <= 4 /\ nth_error f i = Some (Some s) /\
        (s - 1) * n1 <= 4 * (nth i ranks 0 - 1) <= s * n1 /\
        (2 <= s -> (s - 1) * n1 < 4 * (nth i ranks 0 - 1)).
Proof.
  intros Hn ranks n1.
  assert (Hlen : List.length (map Frequency t) = List.length t) by apply length_map.
  split; [apply rank_first_NoDup|].
  split; [rewrite <- Hlen; apply rank_first_perm|].
  split.
  { intros i j A B HA HB H.
    destruct (nth_error_nth_map t i A HA) as (Hi & EA).
    destruct (nth_error_nth_map t j B HB) as (Hj & EB).
    apply rank_first_lt; rewrite ?Hlen, ?EA, ?EB; assumption. }
  eexists. split; [reflexivity|]. split; [apply F_Score_Ok; lia|].
  fold ranks.
  assert (Hrl : List.length ranks = List.length t)
    by (unfold ranks; rewrite rank_first_length; assumption).
  split; [rewrite length_map; assumption|].
  intros i Hi.
  set (rk := nth i ranks 0).
  assert (Hin : In rk ranks) by (apply nth_In; lia).
  assert (Hnth : nth_error ranks i = Some rk) by (apply nth_error_nth'; lia).
  set (b := bin_id (bin_edges (map inject_Z ranks) 4) (inject_Z rk)).
  assert (Hb : (1 <= b <= 4)%nat) by (apply bin_id_range, in_map, Hin).
  exists (Z.of_nat b). split; [lia|]. split.
  - apply (map_nth_error
             (fun rk => Some (Z.of_nat (bin_id (bin_edges (map inject_Z ranks) 4)
                                           (inject_Z rk))))).
    assumption.
  - unfold n1. rewrite <- Hlen.
    apply rank_quartile_bounds; [lia | assumption|].
    apply bin_id_in_quartile, in_map, Hin.
Qed.

Lemma frequency_rank_then_quartile_witness :
  rank_first (map Frequency four_alike) = [1; 2; 3; 4] /\
  NoDup (rank_first (map Frequency four_alike)) /\
  F_Score four_alike = Ok [Some 1; Some 2; Some 3; Some 4].
Proof.
  split; [reflexivity|].
  destruct (frequency_rank_then_quartile four_alike ltac:(simpl; lia))
    as (Hnd & _ & _ & f & _ & Hf & _).
  split; [exact Hnd|]. vm_compute. reflexivity.
Defined.

(** C10.  On a population of at least four customers frequency scoring
    never fails, whatever the frequency values: the five cut points of the
    ranks are distinct and every customer gets a score from 1 to 4.  Recency
    and monetary are cut on the raw values and do fail when these are all
    the same. *)
Theorem frequency_scoring_succeeds (t : list RFMRow) :
  (4 <= List.length t)%nat ->
  distinct_cut_points (map inject_Z (rank_first (map Frequency t))) = 5%nat /\
  (exists f, F_Score t = Ok f /\ List.length f = List.length t /\
     forall s, In s f -> exists b, s = Some b /\ 1 <= b <= 4) /\
  ((forall A B, In A t -> In B t -> Recency A = Recency B) ->
     R_Score t = Raise Bin_edges_must_be_unique) /\
  ((forall A B, In A t -> In B t -> (Monetary A == Monetary B)%Q) ->
     M_Score t = Raise Bin_edges_must_be_unique).
Proof.
  intro Hn.
  assert (Hlen : List.length (map Frequency t) = List.length t) by apply length_map.
  split; [apply rank_column_scorable; lia|]. split; [|split].
  - eexists. split; [apply F_Score_Ok; lia|].
    split; [rewrite length_map, rank_first_length; assumption|].
    intros s Hs. apply in_map_iff in Hs. destruct Hs as (rk & <- & Hrk).
    eexists. split; [reflexivity|].
    pose proof (bin_id_range _ _ (in_map inject_Z _ _ Hrk)). lia.
  - intro H. unfold R_Score.
    destruct t as [|A0 t']; [simpl in Hn; lia|].
    apply (constant_column_raises _ (inject_Z (Recency A0))); [discriminate|].
    intros v Hv. apply in_map_iff in Hv. destruct Hv as (A & <- & HA).
    rewrite (H A A0 HA (or_introl eq_refl)). reflexivity.
  - intro H. unfold M_Score.
    destruct t as [|A0 t']; [simpl in Hn; lia|].
    apply (constant_column_raises _ (Monetary A0)); [discriminate|].
    intros v Hv. apply in_map_iff in Hv. destruct Hv as (A & <- & HA).
    apply H; [assumption | left; reflexivity].
Qed.

Lemma frequency_scoring_succeeds_witness :
  (exists f, F_Score four_alike = Ok f /\ List.length f = 4%nat /\
     forall s, In s f -> exists b, s = Some b /\ 1 <= b <= 4) /\
  R_Score four_alike = Raise Bin_edges_must_be_unique.
Proof.
  destruct (frequency_scoring_succeeds four_alike ltac:(simpl; lia))
    as (_ & Hf & HR & _).
  split; [exact Hf|]. apply HR.
  intros A B HA HB. simpl in HA, HB.
  repeat (destruct HA as [<-|HA]); try destruct HA;
    repeat (destruct HB as [<-|HB]); try destruct HB; reflexivity.
Defined.

(** ** The whole pipeline *)

Section Pipeline.



End Pipeline.



(** * Further properties of the script *)

(** ** Revenue per customer and spending tiers *)

Section Revenue.

Lemma categorise_spending_cases (v : Q) :
  ((1000 <= v)%Q /\ categorise_spending v = "High"%string) \/
  ((500 <= v)%Q /\ (v < 1000)%Q /\ categorise_spending v = "Medium"%string) \/
  ((v < 500)%Q /\ categorise_spending v = "Low"%string).
Proof.
  unfold categorise_spending.
  destruct (Qle_bool 1000 v) eqn:E1.
  - left. split; [apply Qle_bool_iff; assumption | reflexivity].
  - assert (H1 : (v < 1000)%Q).
    { apply Qnot_le_lt. intro H. apply Qle_bool_iff in H. congruence. }
    destruct (Qle_bool 500 v) eqn:E2.
    + right. left. split; [apply Qle_bool_iff; assumption|]. split; [assumption | reflexivity].
    + right. right. split; [|reflexivity].
      apply Qnot_le_lt. intro H. apply Qle_bool_iff in H. congruence.
Qed.

Lemma lookup_In (V : Type) (k : Z) (v : V) (s : list (Z * V)) :
  NoDup (map fst s) -> In (k, v) s -> lookup k s = Some v.
Proof.
  induction s as [|[k' v'] r IH]; intros Hnd Hin; simpl in *; [destruct Hin|].
  inversion Hnd as [|? ? Hk' Hr]; subst.
  destruct Hin as [E|Hin].
  - injection E as -> ->. rewrite Z.eqb_refl. reflexivity.
  - destruct (Z.eqb_spec k k') as [->|Hne]; [|apply IH; assumption].
    exfalso. apply Hk'. apply (in_map fst) in Hin. exact Hin.
Qed.

Lemma insert_desc_perm (e : Z * Q) (s : list (Z * Q)) :
  Permutation (insert_desc e s) (e :: s).
Proof.
  induction s as [|h r IH]; simpl; [reflexivity|].
  destruct (Qle_bool (snd h) (snd e)); [reflexivity|].
  rewrite IH. apply perm_swap.
Qed.

Lemma sort_values_desc_perm (s : list (Z * Q)) :
  Permutation (sort_values_desc s) s.
Proof.
  induction s as [|e r IH]; simpl; [reflexivity|].
  rewrite insert_desc_perm. constructor. exact IH.
Qed.






Lemma group_sum_In (df : list Transaction) (k : Z) :
  In k (map CustomerID df) ->
  In (k, series_sum (map TotalPrice (filter (fun t => CustomerID t =? k) df)))
     (group_sum df).
Proof.
  intro Hk. unfold group_sum, groupby. rewrite map_map. simpl.
  apply (in_map (fun k =>
                   (k, series_sum (map TotalPrice
                                     (filter (fun t => CustomerID t =? k) df))))).
  apply group_keys_In. assumption.
Qed.


End Revenue.

(** X1.  The spending tier never goes down when the revenue goes up: above
    a "High" revenue everything is "High", below a "Low" revenue everything
    is "Low"; "High" starts at 1000 and "Low" ends below 500. *)
Theorem categorise_spending_monotone (a b : Q) :
  (a <= b)%Q ->
  (categorise_spending a = "High"%string -> categorise_spending b = "High"%string) /\
  (categorise_spending b = "Low"%string -> categorise_spending a = "Low"%string) /\
  (categorise_spending a = "High"%string <-> (1000 <= a)%Q) /\
  (categorise_spending a = "Low"%string <-> (a < 500)%Q).
Proof.
  intro Hab.
  destruct (categorise_spending_cases a) as [(Ha & Ea)|[(Ha & Ha' & Ea)|(Ha & Ea)]];
  destruct (categorise_spending_cases b) as [(Hb & Eb)|[(Hb & Hb' & Eb)|(Hb & Eb)]];
    rewrite Ea, Eb;
    repeat split; intros; try reflexivity; try discriminate; try assumption;
    try lra.
Qed.

Lemma categorise_spending_monotone_witness :
  categorise_spending (1500 # 1) = "High"%string /\
  (categorise_spending (499 # 1) = "Low"%string <-> (499 # 1 < 500)%Q).
Proof.
  destruct (categorise_spending_monotone (499 # 1) (1500 # 1)) as (_ & _ & _ & H).
  - unfold Qle. simpl. lia.
  - split; [reflexivity | exact H].
Defined.

Section RevenueCategories.

Variable mul : Z -> Q -> Q.
Variable sum : list Q -> Q.

Lemma group_sum_with_keys (df : list Transaction) :
  map fst (group_sum_with mul sum df) = group_keys (map CustomerID df).
Proof.
  unfold group_sum_with, groupby. rewrite !map_map. simpl. apply map_id.
Qed.

Lemma group_sum_with_In (df : list Transaction) (k : Z) :
  In k (map CustomerID df) ->
  In (k, sum (map (fun t => mul (Quantity t) (UnitPrice t))
                  (filter (fun t => CustomerID t =? k) df)))
     (group_sum_with mul sum df).
Proof.
  intro Hk. unfold group_sum_with, groupby. rewrite map_map. simpl.
  apply (in_map (fun k0 =>
                   (k0, sum (map (fun t => mul (Quantity t) (UnitPrice t))
                                 (filter (fun t => CustomerID t =? k0) df))))).
  apply group_keys_In. assumption.
Qed.

Lemma customer_revenue_with_keys_NoDup (df : list Transaction) :
  NoDup (map fst (customer_revenue_with mul sum df)).
Proof.
  unfold customer_revenue_with.
  apply (Permutation_NoDup
           (Permutation_map fst (Permutation_sym (sort_values_desc_perm _)))).
  rewrite group_sum_with_keys. apply sorted_lt_NoDup, group_keys_sorted.
Qed.

End RevenueCategories.

(** The revenue series with the exact product and sum. *)
Lemma customer_revenue_exact (df : list Transaction) :
  customer_revenue df
  = customer_revenue_with (fun q p => inject_Z q * p)%Q series_sum df.
Proof. reflexivity. Qed.

(** X2.  Every row of the frame finds its customer in the revenue
    categories: the revenue series holds for the customer the script's
    floating point sum, over the customer's rows in the order of the frame,
    of the floating point products of quantity and unit price, the category
    of the row is [categorise_spending] of that sum, and the fallback value
    "Unknown" is never used. *)
Theorem customer_category_known (mul : Z -> Q -> Q) (sum : list Q -> Q)
  (df : list Transaction) :
  let revenue := fun t =>
    sum (map (fun u => mul (Quantity u) (UnitPrice u))
             (filter (fun u => CustomerID u =? CustomerID t) df)) in
  (forall t, In t df ->
     In (CustomerID t, revenue t) (customer_revenue_with mul sum df) /\
     lookup (CustomerID t) (customer_revenue_category_with mul sum df)
     = Some (categorise_spending (revenue t))) /\
  customer_category_with mul sum df
  = map (fun t => categorise_spending (revenue t)) df /\
  ~ In "Unknown"%string (customer_category_with mul sum df).
Proof.
  intro revenue.
  assert (H : forall t, In t df ->
            In (CustomerID t, revenue t) (customer_revenue_with mul sum df) /\
            lookup (CustomerID t) (customer_revenue_category_with mul sum df)
            = Some (categorise_spending (revenue t))).
  { intros t Ht.
    assert (Hin : In (CustomerID t, revenue t) (customer_revenue_with mul sum df)).
    { apply (Permutation_in _ (Permutation_sym (sort_values_desc_perm _))).
      apply group_sum_with_In, in_map, Ht. }
    split; [exact Hin|].
    apply lookup_In.
    - unfold customer_revenue_category_with. rewrite map_map. simpl.
      apply customer_revenue_with_keys_NoDup.
    - unfold customer_revenue_category_with.
      apply (in_map (fun e => (fst e, categorise_spending (snd e))) _ _ Hin). }
  split; [exact H|].
  assert (E : customer_category_with mul sum df
              = map (fun t => categorise_spending (revenue t)) df).
  { unfold customer_category_with. apply map_ext_in. intros t Ht.
    rewrite (proj2 (H t Ht)). reflexivity. }
  split; [exact E|].
  rewrite E. intro Hin. apply in_map_iff in Hin.
  destruct Hin as (t & Ht & _).
  destruct (categorise_spending_cases (revenue t))
    as [(_ & Ec)|[(_ & _ & Ec)|(_ & Ec)]]; rewrite Ec in Ht; discriminate.
Qed.

Lemma customer_category_known_witness :
  In (1, 10%Q) (customer_revenue five_customers) /\
  lookup 1 (customer_revenue_category_with (fun q p => inject_Z q * p)%Q
              series_sum five_customers)
  = Some "Low"%string.
Proof.
  destruct (proj1 (customer_category_known (fun q p => inject_Z q * p)%Q
                     series_sum five_customers) (tx 1 "a" 0 2 5)) as (Hin & Hl).
  - simpl. auto.
  - split; [exact Hin | exact Hl].
Defined.



(** ** Bounds on the aggregated frame *)

Section RfmBounds.


Lemma rfm_empty_frame (df : list Transaction) : df = [] -> rfm df = [].
Proof. intros ->. reflexivity. Qed.


End RfmBounds.

(** X5.  When lines 122-130 return a frame, every row of it has a recency
    of at least one day and a frequency of at least one invoice and at most
    the number of rows of the customer; the row of a customer with an
    invoice at the latest date of the frame exists and has recency 1. *)
Theorem rfm_recency_frequency_bounds (mul : Z -> Q -> Q) (sum : list Q -> Q)
  (df : list Transaction) (rows : list RFMRow) :
  aggregate_with mul sum df = Ok rows ->
  (forall r, In r rows ->
     1 <= Recency r /\
     1 <= Frequency r
       <= Z.of_nat (List.length
                      (filter (fun t => CustomerID t =? rfm_CustomerID r) df))) /\
  (forall last, In last df ->
     (forall t, In t df -> InvoiceDate t <= InvoiceDate last) ->
     (exists r, In r rows /\ rfm_CustomerID r = CustomerID last) /\
     forall r, In r rows -> rfm_CustomerID r = CustomerID last -> Recency r = 1).
Proof.
  intro Hok. apply aggregate_with_Ok_inv in Hok.
  destruct Hok as [(-> & ->)|(m & Hm & _ & _ & ->)].
  { split; [intros r Hr; destruct Hr | intros last Hl; destruct Hl]. }
  assert (Hne : map InvoiceDate df <> [])
    by (destruct df; [discriminate | discriminate]).
  destruct (series_max_spec _ Hne) as (m' & Hm' & Hmin & Hmax).
  rewrite Hm in Hm'. injection Hm' as <-.
  assert (Hday : Timedelta_days 1 = 86400000000000) by reflexivity.
  rewrite Hday. split.
  - intros r Hr. destruct (rfm_agg_with_row _ _ _ _ _ Hr) as (Hrec & Hfreq & _).
    destruct Hrec as (t & Ht & _ & Hdays).
    destruct Hfreq as (ids & Hnd & Hids & ->).
    apply filter_In in Ht. destruct Ht as (Ht & Hc).
    pose proof (Hmax _ (in_map InvoiceDate _ _ Ht)) as Hle.
    split; [lia|]. split.
    + assert (Hin : In (InvoiceNo t) ids).
      { apply Hids, in_map, filter_In. split; assumption. }
      destruct ids; [destruct Hin | simpl; lia].
    + apply inj_le. rewrite <- (length_map InvoiceNo).
      apply NoDup_incl_length; [assumption|].
      intros i Hi. apply Hids. assumption.
  - intros last Hlast Hlatest.
    assert (Hml : InvoiceDate last = m).
    { pose proof (Hmax _ (in_map InvoiceDate _ _ Hlast)).
      apply in_map_iff in Hmin. destruct Hmin as (u & <- & Hu).
      pose proof (Hlatest u Hu). lia. }
    split.
    + assert (Hk : In (CustomerID last)
                      (map rfm_CustomerID (rfm_agg_with mul sum (m + 86400000000000) df))).
      { rewrite rfm_agg_with_keys. apply group_keys_In, in_map. assumption. }
      apply in_map_iff in Hk. destruct Hk as (r & Hid & Hr). exists r. auto.
    + intros r Hr Hid.
      destruct (rfm_agg_with_row _ _ _ _ _ Hr) as ((t & Ht & Hlatest' & Hdays) & _).
      rewrite Hid in Ht, Hlatest'.
      assert (Hl : In last (filter (fun t => CustomerID t =? CustomerID last) df))
        by (apply filter_In; split; [assumption | apply Z.eqb_refl]).
      pose proof (Hlatest' last Hl).
      apply filter_In in Ht. destruct Ht as (Ht & _).
      pose proof (Hlatest t Ht). lia.
Qed.

Lemma rfm_recency_frequency_bounds_witness :
  aggregate_with (fun q p => inject_Z q * p)%Q series_sum five_customers
  = Ok (rfm_agg (Timedelta_days 12) five_customers) /\
  exists r,
    In r (rfm_agg (Timedelta_days 12) five_customers) /\
    rfm_CustomerID r = 4 /\ Recency r = 1.
Proof.
  assert (E : aggregate_with (fun q p => inject_Z q * p)%Q series_sum five_customers
              = Ok (rfm_agg (Timedelta_days 12) five_customers))
    by (vm_compute; reflexivity).
  split; [exact E|].
  destruct (proj2 (rfm_recency_frequency_bounds
                     (fun q p => inject_Z q * p)%Q series_sum
                     five_customers
                     (rfm_agg (Timedelta_days 12) five_customers) E)
              (tx 4 "d" 11 1 (7 # 2))) as ((r & Hr & Hid) & Hone).
  - simpl. auto.
  - intros t Ht. simpl in Ht.
    repeat (destruct Ht as [<-|Ht]; [vm_compute; discriminate|]). destruct Ht.
  - exists r. split; [exact Hr|]. split; [exact Hid | exact (Hone r Hr Hid)].
Defined.



(** ** Scores under order-preserving changes of a column *)

Section QcutInvariance.

(** A relation between the values of two columns that keeps comparisons
    and interpolation, such as equality of rationals or a common shift. *)
Variable R : Q -> Q -> Prop.
Hypothesis R_le :
  forall a a' b b', R a a' -> R b b' -> Qle_bool a b = Qle_bool a' b'.
Hypothesis R_interp :
  forall a a' b b' g, R a a' -> R b b' ->
    R (a + (b - a) * g)%Q (a' + (b' - a') * g)%Q.















End QcutInvariance.

Section Invariance.





Lemma Forall2_Qeq_map (t t' : list RFMRow) :
  Forall2 (fun r r' => (Monetary r == Monetary r')%Q) t t' ->
  Forall2 Qeq (map Monetary t) (map Monetary t').
Proof. induction 1; simpl; constructor; assumption. Qed.


End Invariance.

(** ** Independence of the row order and of the reference date *)

Section OrderIndependence.

Lemma sorted_lt_unique (l : list Z) :
  forall l', StronglySorted Z.lt l -> StronglySorted Z.lt l' ->
  (forall x, In x l <-> In x l') -> l = l'.
Proof.
  induction l as [|a r IH]; intros l' Hs Hs' Hin.
  - destruct l' as [|b r']; [reflexivity|].
    exfalso. apply (proj2 (Hin b)). left. reflexivity.
  - destruct l' as [|b r'].
    { exfalso. apply (proj1 (Hin a)). left. reflexivity. }
    inversion Hs as [|? ? Hr Ha]; subst. inversion Hs' as [|? ? Hr' Hb]; subst.
    rewrite Forall_forall in Ha, Hb.
    assert (E : a = b).
    { destruct (proj1 (Hin a) (or_introl eq_refl)) as [E|Ha']; [congruence|].
      destruct (proj2 (Hin b) (or_introl eq_refl)) as [E|Hb']; [congruence|].
      specialize (Ha b Hb'). specialize (Hb a Ha'). lia. }
    subst b. f_equal. apply IH; try assumption.
    intro x. split; intro Hx.
    + destruct (proj1 (Hin x) (or_intror Hx)) as [E|H]; [|assumption].
      specialize (Ha x Hx). lia.
    + destruct (proj2 (Hin x) (or_intror Hx)) as [E|H]; [|assumption].
      specialize (Hb x Hx). lia.
Qed.

Lemma group_keys_perm (l l' : list Z) :
  Permutation l l' -> group_keys l = group_keys l'.
Proof.
  intro Hp. apply sorted_lt_unique; try apply group_keys_sorted.
  intro x. rewrite !group_keys_In.
  split; apply Permutation_in; [|apply Permutation_sym]; assumption.
Qed.

Lemma series_max_perm (l l' : list Z) :
  Permutation l l' -> series_max l = series_max l'.
Proof.
  intro Hp. destruct l as [|a r].
  - apply Permutation_nil in Hp. subst. reflexivity.
  - assert (Hne' : l' <> []).
    { intro E. subst. apply Permutation_sym, Permutation_nil in Hp. discriminate. }
    destruct (series_max_spec (a :: r) ltac:(discriminate)) as (m & Hm & Hin & Hall).
    destruct (series_max_spec l' Hne') as (m' & Hm' & Hin' & Hall').
    rewrite Hm, Hm'. f_equal.
    pose proof (Hall' m (Permutation_in _ Hp Hin)).
    pose proof (Hall m' (Permutation_in _ (Permutation_sym Hp) Hin')). lia.
Qed.

Lemma filter_perm (A : Type) (p : A -> bool) (l l' : list A) :
  Permutation l l' -> Permutation (filter p l) (filter p l').
Proof.
  induction 1 as [|a l l' H IH|a b l|l l' l'' H1 IH1 H2 IH2]; simpl.
  - constructor.
  - destruct (p a); [constructor|]; assumption.
  - destruct (p a), (p b); try reflexivity. apply perm_swap.
  - eapply Permutation_trans; eassumption.
Qed.

Lemma nunique_perm (l l' : list string) :
  Permutation l l' -> nunique l = nunique l'.
Proof.
  intro Hp. unfold nunique. f_equal.
  apply Permutation_length, NoDup_Permutation; try apply unique_NoDup.
  intro x. rewrite !unique_In.
  split; apply Permutation_in; [|apply Permutation_sym]; assumption.
Qed.




End OrderIndependence.

(** X7.  What lines 122-130 compute without floating point does not depend
    on the order of the rows: a frame and any rearrangement of it raise
    alike or give the same customers, recencies and frequencies, hence the
    same R and F scores.  (Monetary is a floating point sum in row order and
    is left out.) *)
Theorem recency_frequency_order_independent (mul : Z -> Q -> Q)
  (sum : list Q -> Q) (df df' : list Transaction) :
  Permutation df df' ->
  result_map key_columns (aggregate_with mul sum df)
    = result_map key_columns (aggregate_with mul sum df') /\
  bind (aggregate_with mul sum df) R_Score
    = bind (aggregate_with mul sum df') R_Score /\
  bind (aggregate_with mul sum df) F_Score
    = bind (aggregate_with mul sum df') F_Score.
Proof.
  intro Hp. unfold aggregate_with, reference_date.
  rewrite (series_max_perm _ _ (Permutation_map InvoiceDate Hp)).
  destruct (series_max (map InvoiceDate df')) as [m|]; [|repeat split; reflexivity].
  destruct (m + Timedelta_days 1 <=? Timestamp_max); [|repeat split; reflexivity].
  cbn [bind]. set (ref := m + Timedelta_days 1).
  pose proof (group_keys_perm _ _ (Permutation_map CustomerID Hp)) as Hk.
  assert (Hf : forall k, Permutation (filter (fun t => CustomerID t =? k) df)
                                     (filter (fun t => CustomerID t =? k) df'))
    by (intro k; apply filter_perm; assumption).
  assert (Hfit : forallb (fun g => recency_fits ref (map InvoiceDate (snd g))) (groupby df)
                 = forallb (fun g => recency_fits ref (map InvoiceDate (snd g))) (groupby df')).
  { unfold groupby. rewrite Hk.
    generalize (group_keys (map CustomerID df')). intro ks.
    induction ks as [|k ks IH]; [reflexivity|].
    cbn [map forallb snd]. rewrite IH. unfold recency_fits.
    rewrite (series_max_perm _ _ (Permutation_map InvoiceDate (Hf k))). reflexivity. }
  rewrite Hfit.
  destruct (forallb _ (groupby df')); [|repeat split; reflexivity].
  assert (Hrec : map Recency (rfm_agg_with mul sum ref df)
                 = map Recency (rfm_agg_with mul sum ref df')).
  { unfold rfm_agg_with, groupby. rewrite !map_map, Hk.
    apply map_ext. intro k. cbn [agg_with Recency snd]. unfold agg_InvoiceDate.
    rewrite (series_max_perm _ _ (Permutation_map InvoiceDate (Hf k))). reflexivity. }
  assert (Hfreq : map Frequency (rfm_agg_with mul sum ref df)
                  = map Frequency (rfm_agg_with mul sum ref df')).
  { unfold rfm_agg_with, groupby. rewrite !map_map, Hk.
    apply map_ext. intro k. cbn [agg_with Frequency snd].
    apply nunique_perm, Permutation_map, Hf. }
  split; [|split].
  - cbn [result_map]. f_equal. unfold key_columns, rfm_agg_with, groupby.
    rewrite !map_map, Hk. apply map_ext. intro k.
    cbn [agg_with rfm_CustomerID Recency Frequency fst snd]. unfold agg_InvoiceDate.
    rewrite (series_max_perm _ _ (Permutation_map InvoiceDate (Hf k))).
    rewrite (nunique_perm _ _ (Permutation_map InvoiceNo (Hf k))). reflexivity.
  - cbn [bind]. unfold R_Score.
    rewrite <- !(map_map Recency inject_Z), Hrec. reflexivity.
  - cbn [bind]. unfold F_Score. rewrite Hfreq. reflexivity.
Qed.

Lemma recency_frequency_order_independent_witness :
  result_map key_columns
    (aggregate_with (fun q p => inject_Z q * p)%Q series_sum (rev two_customers))
  = Ok [(1, 11, 1); (2, 1, 1)].
Proof.
  rewrite <- (proj1 (recency_frequency_order_independent
                       (fun q p => inject_Z q * p)%Q series_sum
                       two_customers (rev two_customers)
                       (Permutation_rev two_customers))).
  vm_compute. reflexivity.
Defined.


(** ** The segments of a successful run *)

Section Segments.




Lemma all_or_some (t : list RFMRow) (P : RFMRow -> Prop) :
  (forall A, {P A} + {~ P A}) ->
  (forall A, In A t -> P A) \/ (exists A, In A t /\ ~ P A).
Proof.
  intro Hdec. induction t as [|A r IH].
  - left. intros A H. destruct H.
  - destruct (Hdec A) as [HA|HA].
    + destruct IH as [IH|(B & HB & HnB)].
      * left. intros B [<-|HB]; auto.
      * right. exists B. split; [right|]; assumption.
    + right. exists A. split; [left; reflexivity | assumption].
Qed.

End Segments.





(** X11.  Scoring needs variety, not four customers: when it succeeds, the
    population has two customers with different recencies and two customers
    with different monetary values, hence at least two customers. *)
Theorem scored_population_varies (t : list RFMRow) (segs : list Segment) :
  score_and_segment t = Ok segs ->
  (exists A B, In A t /\ In B t /\ Recency A <> Recency B) /\
  (exists A B, In A t /\ In B t /\ ~ (Monetary A == Monetary B)%Q) /\
  (2 <= List.length t)%nat.
Proof.
  intro Hok.
  destruct (score_and_segment_Ok_inv _ _ Hok)
    as (r & f & m & HR & _ & HM & _ & _ & _ & _).
  destruct t as [|A0 t'].
  { unfold R_Score in HR. simpl in HR. discriminate. }
  assert (H1 : exists A B, In A (A0 :: t') /\ In B (A0 :: t') /\ Recency A <> Recency B).
  { destruct (all_or_some (A0 :: t') (fun A => Recency A = Recency A0)) as [Hall|(B & HB & Hne)].
    - intro A. apply Z.eq_dec.
    - exfalso. unfold R_Score in HR.
      rewrite (constant_column_raises _ (inject_Z (Recency A0))) in HR;
        [discriminate | discriminate |].
      intros v Hv. apply in_map_iff in Hv. destruct Hv as (A & <- & HA).
      rewrite (Hall A HA). reflexivity.
    - exists B, A0. split; [assumption|]. split; [left; reflexivity | assumption]. }
  assert (H2 : exists A B, In A (A0 :: t') /\ In B (A0 :: t')
                           /\ ~ (Monetary A == Monetary B)%Q).
  { destruct (all_or_some (A0 :: t') (fun A => (Monetary A == Monetary A0)%Q))
      as [Hall|(B & HB & Hne)].
    - intro A. apply Qeq_dec.
    - exfalso. unfold M_Score in HM.
      rewrite (constant_column_raises _ (Monetary A0)) in HM;
        [discriminate | discriminate |].
      intros v Hv. apply in_map_iff in Hv. destruct Hv as (A & <- & HA).
      apply Hall, HA.
    - exists B, A0. split; [assumption|]. split; [left; reflexivity | assumption]. }
  split; [exact H1|]. split; [exact H2|].
  destruct H1 as (A & B & HA & HB & Hne).
  destruct t' as [|A1 t'']; [|simpl; lia].
  exfalso. destruct HA as [<-|[]], HB as [<-|[]]. congruence.
Qed.

Lemma scored_population_varies_witness :
  (2 <= List.length six_rows)%nat.
Proof.
  refine (proj2 (proj2 (scored_population_varies six_rows six_segments _))).
  vm_compute. reflexivity.
Defined.

(** ** Extreme customers, monotone scores and ties *)

Section Extremes.

Lemma filter_length_all (A : Type) (p : A -> bool) (l : list A) :
  List.length (filter p l) = List.length l -> forall b, In b l -> p b = true.
Proof.
  induction l as [|a r IH]; intros H b Hb; [destruct Hb|]. simpl in H.
  pose proof (filter_length_le p r) as Hle.
  destruct (p a) eqn:E; simpl in H; [|lia].
  destruct Hb as [<-|Hb]; [assumption|]. apply IH; [lia | assumption].
Qed.

Lemma unique_edges_full_id (bins : list Q) :
  List.length (unique_edges bins) = List.length bins -> unique_edges bins = bins.
Proof.
  induction bins as [|c r IH]; intro H; [reflexivity|]. simpl in H |- *.
  pose proof (filter_length_le (fun b => negb (Qeq_bool b c)) (unique_edges r)) as H1.
  pose proof (unique_edges_length_le r) as H2.
  assert (Hr : List.length (unique_edges r) = List.length r) by lia.
  assert (Hf : List.length (filter (fun b => negb (Qeq_bool b c)) (unique_edges r))
               = List.length (unique_edges r)) by lia.
  rewrite (filter_all _ _ (unique_edges r)) by (apply filter_length_all; exact Hf).
  rewrite IH by exact Hr. reflexivity.
Qed.

Lemma unique_edges_full (bins : list Q) :
  List.length (unique_edges bins) = List.length bins ->
  StronglySorted (fun a b => ~ (b == a)%Q) bins.
Proof.
  induction bins as [|a r IH]; intro H; [constructor|].
  pose proof (unique_edges_full_id _ H) as E.
  simpl in H.
  pose proof (filter_length_le (fun b => negb (Qeq_bool b a)) (unique_edges r)) as H1.
  pose proof (unique_edges_length_le r) as H2.
  assert (Hr : List.length (unique_edges r) = List.length r) by lia.
  assert (Hf : List.length (filter (fun b => negb (Qeq_bool b a)) (unique_edges r))
               = List.length (unique_edges r)) by lia.
  constructor; [apply IH; assumption|].
  rewrite Forall_forall. intros b Hb.
  rewrite <- (unique_edges_full_id r Hr) in Hb.
  pose proof (filter_length_all _ _ _ Hf b Hb) as Hp. cbv beta in Hp.
  apply negb_true_iff, Qeq_bool_false_iff in Hp. assumption.
Qed.

Lemma scorable_top_distinct (x : list Q) (k : nat) :
  scorable x -> (k < 4)%nat -> ~ (quantile x 4 k == quantile x 4 4)%Q.
Proof.
  intros (_ & Hs) Hk E.
  assert (Hl : List.length (unique_edges (bin_edges x 4))
               = List.length (bin_edges x 4))
    by (rewrite Hs, bin_edges_length; reflexivity).
  apply unique_edges_full in Hl. rewrite bin_edges_4 in Hl.
  inversion Hl as [|? ? H1 F0]; subst. inversion H1 as [|? ? H2 F1]; subst.
  inversion H2 as [|? ? H3 F2]; subst. inversion H3 as [|? ? H4 F3]; subst.
  rewrite Forall_forall in F0, F1, F2, F3.
  assert (Hk' : k = 0%nat \/ k = 1%nat \/ k = 2%nat \/ k = 3%nat) by lia.
  destruct Hk' as [->|[->|[->| ->]]];
    [apply (F0 (quantile x 4 4)) | apply (F1 (quantile x 4 4))
     | apply (F2 (quantile x 4 4)) | apply (F3 (quantile x 4 4))];
    simpl; try tauto; symmetry; assumption.
Qed.

(** The largest value of a scorable column falls in the fourth bin. *)
Lemma bin_id_highest (x : list Q) (v : Q) :
  scorable x -> (v == quantile x 4 4)%Q -> bin_id (bin_edges x 4) v = 4%nat.
Proof.
  intros Hs Hv. destruct Hs as (Hne & Hu).
  assert (Hlt : forall k, (k < 4)%nat -> Qlt_bool (quantile x 4 k) v = true).
  { intros k Hk. apply Qlt_bool_iff. rewrite Hv.
    destruct (quantile_between x k Hne ltac:(lia)) as (_ & Hhi).
    rewrite <- quantile_highest in Hhi.
    apply Qle_lt_or_eq in Hhi. destruct Hhi as [H|H]; [assumption|].
    exfalso. apply (scorable_top_distinct x k (conj Hne Hu) Hk H). }
  rewrite bin_id_above_lowest.
  - rewrite bin_edges_4. cbn [searchsorted_left].
    rewrite !Hlt by lia.
    assert (E : Qlt_bool (quantile x 4 4) v = false)
      by (apply Qlt_bool_false_iff; rewrite Hv; apply Qle_refl).
    rewrite E. reflexivity.
  - rewrite Hv. intro E.
    apply (scorable_top_distinct x 0 (conj Hne Hu) ltac:(lia)). symmetry. exact E.
Qed.

Lemma smallest_is_lowest_edge (x : list Q) (v : Q) :
  In v x -> (forall w, In w x -> (v <= w)%Q) -> (v == quantile x 4 0)%Q.
Proof.
  intros Hin Hmin. apply Qle_antisym.
  - rewrite quantile_lowest. apply Hmin.
    apply (Permutation_in _ (sort_values_perm x)), nth_In.
    rewrite sort_values_length. destruct x; [destruct Hin | simpl; lia].
  - apply member_between_edges. assumption.
Qed.

Lemma largest_is_highest_edge (x : list Q) (v : Q) :
  In v x -> (forall w, In w x -> (w <= v)%Q) -> (v == quantile x 4 4)%Q.
Proof.
  intros Hin Hmax. apply Qle_antisym.
  - apply member_between_edges. assumption.
  - rewrite quantile_highest. apply Hmax.
    apply (Permutation_in _ (sort_values_perm x)), nth_In.
    rewrite sort_values_length. destruct x; [destruct Hin | simpl; lia].
Qed.

Lemma level_at_risk (f m : option Z) :
  RFM_Level (RFM_Segment (Some 1) f m) = "At Risk"%string.
Proof.
  unfold RFM_Segment. change (astype_str (Some 1)) with "1"%string.
  generalize (astype_str f ++ astype_str m)%string. intro rest. reflexivity.
Qed.

Lemma count_all (p : Z -> bool) (x : list Z) :
  (forall w, In w x -> p w = true) -> count p x = Z.of_nat (List.length x).
Proof. intro H. unfold count. rewrite filter_all by assumption. reflexivity. Qed.

Lemma count_none (p : Z -> bool) (x : list Z) :
  (forall w, In w x -> p w = false) -> count p x = 0.
Proof. intro H. unfold count. rewrite filter_none by assumption. reflexivity. Qed.

Lemma firstn_incl_list (A : Type) (n : nat) (l : list A) (w : A) :
  In w (firstn n l) -> In w l.
Proof.
  revert l. induction n as [|n IH]; intros l H; [destruct H|].
  destruct l as [|a r]; [destruct H|].
  destruct H as [<-|H]; [left; reflexivity | right; apply IH; exact H].
Qed.

(** Among equal values the ranks follow the positions. *)
Lemma rank_first_ties (x : list Z) (i : nat) :
  (forall a b, In a x -> In b x -> a = b) -> (i < List.length x)%nat ->
  nth i (rank_first x) 0 = Z.of_nat (i + 1).
Proof.
  intros Heq Hi. rewrite rank_first_nth by assumption.
  assert (Hv : In (nth i x 0) x) by (apply nth_In; assumption).
  rewrite count_none, count_all.
  - rewrite length_firstn. lia.
  - intros w Hw. apply Z.eqb_eq, Heq; [|assumption].
    apply (firstn_incl_list _ i). exact Hw.
  - intros w Hw. apply Z.ltb_ge. rewrite (Heq w _ Hw Hv). lia.
Qed.

End Extremes.

(** X12.  In a successful run the customer with the smallest recency has R
    score 4 and the one with the largest recency has R score 1 and the level
    "At Risk"; the customer with the largest monetary value has M score 4
    and the one with the smallest has M score 1. *)
Theorem extreme_customers (t : list RFMRow) (segs : list Segment) (i : nat)
  (A : RFMRow) :
  score_and_segment t = Ok segs -> nth_error t i = Some A ->
  exists s, nth_error segs i = Some s /\
    seg_CustomerID s = rfm_CustomerID A /\
    ((forall B, In B t -> Recency A <= Recency B) -> seg_R_Score s = Some 4) /\
    ((forall B, In B t -> Recency B <= Recency A) ->
       seg_R_Score s = Some 1 /\ seg_RFM_Level s = "At Risk"%string) /\
    ((forall B, In B t -> (Monetary B <= Monetary A)%Q) -> seg_M_Score s = Some 4) /\
    ((forall B, In B t -> (Monetary A <= Monetary B)%Q) -> seg_M_Score s = Some 1).
Proof.
  intros Hok HA.
  destruct (score_and_segment_Ok_inv t segs Hok)
    as (r & f & m & HR & _ & HM & Lr & Lf & Lm & ->).
  apply qcut_inverted_Ok in HR. destruct HR as (HsR & Hr).
  apply qcut_direct_Ok in HM. destruct HM as (HsM & Hm).
  set (xR := map (fun r => inject_Z (Recency r)) t) in *.
  set (xM := map Monetary t) in *.
  destruct (segment_nth t r f m i A Lr Lf Lm HA) as (ri & fi & mi & Hri & _ & Hmi & Hs).
  assert (Ei : ri = Some (5 - Z.of_nat (bin_id (bin_edges xR 4) (inject_Z (Recency A))))).
  { assert (E : nth_error r i
                = Some (Some (5 - Z.of_nat (bin_id (bin_edges xR 4) (inject_Z (Recency A)))))).
    { rewrite Hr. unfold xR. rewrite map_map.
      apply (map_nth_error
               (fun row => Some (5 - Z.of_nat (bin_id _ (inject_Z (Recency row)))))).
      assumption. }
    congruence. }
  assert (Em : mi = Some (Z.of_nat (bin_id (bin_edges xM 4) (Monetary A)))).
  { assert (E : nth_error m i
                = Some (Some (Z.of_nat (bin_id (bin_edges xM 4) (Monetary A))))).
    { rewrite Hm. unfold xM. rewrite map_map.
      apply (map_nth_error
               (fun row => Some (Z.of_nat (bin_id _ (Monetary row))))).
      assumption. }
    congruence. }
  assert (HinR : In (inject_Z (Recency A)) xR)
    by (apply (in_map (fun r => inject_Z (Recency r))), (nth_error_In _ _ HA)).
  assert (HinM : In (Monetary A) xM)
    by (apply (in_map Monetary), (nth_error_In _ _ HA)).
  exists (segment (A, (ri, (fi, mi)))).
  split; [exact Hs|]. split; [reflexivity|]. subst ri mi.
  split; [|split; [|split]].
  - intro Hmin. cbn [segment seg_R_Score].
    rewrite bin_id_lowest; [reflexivity|].
    apply smallest_is_lowest_edge; [assumption|].
    intros w Hw. apply in_map_iff in Hw. destruct Hw as (B & <- & HB).
    rewrite <- Zle_Qle. apply Hmin, HB.
  - intro Hmax.
    assert (E : bin_id (bin_edges xR 4) (inject_Z (Recency A)) = 4%nat).
    { apply bin_id_highest; [assumption|].
      apply largest_is_highest_edge; [assumption|].
      intros w Hw. apply in_map_iff in Hw. destruct Hw as (B & <- & HB).
      rewrite <- Zle_Qle. apply Hmax, HB. }
    cbn [segment seg_R_Score seg_RFM_Level]. rewrite E.
    split; [reflexivity|]. apply level_at_risk.
  - intro Hmax. cbn [segment seg_M_Score].
    rewrite bin_id_highest; [reflexivity | assumption|].
    apply largest_is_highest_edge; [assumption|].
    intros w Hw. apply in_map_iff in Hw. destruct Hw as (B & <- & HB).
    apply Hmax, HB.
  - intro Hmin. cbn [segment seg_M_Score].
    rewrite bin_id_lowest; [reflexivity|].
    apply smallest_is_lowest_edge; [assumption|].
    intros w Hw. apply in_map_iff in Hw. destruct Hw as (B & <- & HB).
    apply Hmin, HB.
Qed.

Lemma extreme_customers_witness :
  exists s, nth_error six_segments 5 = Some s /\
    seg_R_Score s = Some 1 /\ seg_RFM_Level s = "At Risk"%string.
Proof.
  destruct (extreme_customers six_rows six_segments 5 (mkRFMRow 16 6 3 30))
    as (s & Hs & _ & _ & Hmax & _).
  - vm_compute. reflexivity.
  - reflexivity.
  - exists s. split; [exact Hs|]. apply Hmax.
    intros B HB. simpl in HB.
    repeat (destruct HB as [<-|HB]; [simpl; lia|]). destruct HB.
Defined.

(** X13.  Monetary and frequency scores follow the values: in a successful
    run a customer with at most the monetary value of another has at most
    its M score, and a customer with a strictly smaller frequency has at
    most its F score. *)
Theorem monetary_frequency_scores_monotone (t : list RFMRow)
  (segs : list Segment) (i j : nat) (A B : RFMRow) :
  score_and_segment t = Ok segs ->
  nth_error t i = Some A -> nth_error t j = Some B ->
  exists sa sb ma mb fa fb,
    nth_error segs i = Some sa /\ nth_error segs j = Some sb /\
    seg_M_Score sa = Some ma /\ seg_M_Score sb = Some mb /\
    seg_F_Score sa = Some fa /\ seg_F_Score sb = Some fb /\
    ((Monetary A <= Monetary B)%Q -> ma <= mb) /\
    (Frequency A < Frequency B -> fa <= fb).
Proof.
  intros Hok HA HB.
  destruct (score_and_segment_Ok_inv t segs Hok)
    as (r & f & m & _ & HF & HM & Lr & Lf & Lm & ->).
  apply qcut_direct_Ok in HM. destruct HM as (_ & Hm).
  unfold F_Score in HF. apply qcut_direct_Ok in HF. destruct HF as (_ & Hf).
  set (xM := map Monetary t) in *.
  set (ranks := rank_first (map Frequency t)) in *.
  set (xF := map inject_Z ranks) in *.
  destruct (nth_error_nth_map t i A HA) as (Hi & EA).
  destruct (nth_error_nth_map t j B HB) as (Hj & EB).
  assert (Hlen : List.length (map Frequency t) = List.length t) by apply length_map.
  assert (Hrl : List.length ranks = List.length t)
    by (unfold ranks; rewrite rank_first_length; assumption).
  destruct (segment_nth t r f m i A Lr Lf Lm HA) as (ri & fi & mi & _ & Hfi & Hmi & Hsa).
  destruct (segment_nth t r f m j B Lr Lf Lm HB) as (rj & fj & mj & _ & Hfj & Hmj & Hsb).
  assert (Fi : nth_error f i
               = Some (Some (Z.of_nat (bin_id (bin_edges xF 4) (inject_Z (nth i ranks 0)))))).
  { rewrite Hf. unfold xF. rewrite map_map.
    apply (map_nth_error (fun rk => Some (Z.of_nat (bin_id _ (inject_Z rk))))).
    apply nth_error_nth'. lia. }
  assert (Fj : nth_error f j
               = Some (Some (Z.of_nat (bin_id (bin_edges xF 4) (inject_Z (nth j ranks 0)))))).
  { rewrite Hf. unfold xF. rewrite map_map.
    apply (map_nth_error (fun rk => Some (Z.of_nat (bin_id _ (inject_Z rk))))).
    apply nth_error_nth'. lia. }
  assert (Mi : nth_error m i = Some (Some (Z.of_nat (bin_id (bin_edges xM 4) (Monetary A))))).
  { rewrite Hm. unfold xM. rewrite map_map.
    apply (map_nth_error (fun row => Some (Z.of_nat (bin_id _ (Monetary row))))).
    assumption. }
  assert (Mj : nth_error m j = Some (Some (Z.of_nat (bin_id (bin_edges xM 4) (Monetary B))))).
  { rewrite Hm. unfold xM. rewrite map_map.
    apply (map_nth_error (fun row => Some (Z.of_nat (bin_id _ (Monetary row))))).
    assumption. }
  rewrite Hfi in Fi. injection Fi as Fi. rewrite Hfj in Fj. injection Fj as Fj.
  rewrite Hmi in Mi. injection Mi as Mi. rewrite Hmj in Mj. injection Mj as Mj.
  subst fi fj mi mj.
  eexists _, _, _, _, _, _.
  split; [exact Hsa|]. split; [exact Hsb|].
  split; [reflexivity|]. split; [reflexivity|].
  split; [reflexivity|]. split; [reflexivity|].
  split.
  - intro Hle. apply inj_le. apply bin_id_mono; try assumption.
    + apply (in_map Monetary), (nth_error_In _ _ HA).
    + apply (in_map Monetary), (nth_error_In _ _ HB).
  - intro Hlt. apply inj_le. apply bin_id_mono.
    + apply in_map, nth_In. lia.
    + apply in_map, nth_In. lia.
    + rewrite <- Zle_Qle. apply Z.lt_le_incl.
      apply rank_first_lt; rewrite ?Hlen, ?EA, ?EB; try assumption.
      left. assumption.
Qed.

Lemma monetary_frequency_scores_monotone_witness :
  exists sa sb ma mb,
    nth_error six_segments 0 = Some sa /\ nth_error six_segments 3 = Some sb /\
    seg_M_Score sa = Some ma /\ seg_M_Score sb = Some mb /\ ma <= mb.
Proof.
  destruct (monetary_frequency_scores_monotone six_rows six_segments 0 3
              (mkRFMRow 11 1 1 1) (mkRFMRow 14 4 2 10))
    as (sa & sb & ma & mb & fa & fb & H1 & H2 & H3 & H4 & _ & _ & Hm & _).
  - vm_compute. reflexivity.
  - reflexivity.
  - reflexivity.
  - exists sa, sb, ma, mb. repeat split; try assumption.
    apply Hm. unfold Qle. simpl. lia.
Defined.

(** X14.  Equal frequencies are split by position: when all customers of a
    population of at least two have the same frequency, the ranks are the
    positions, the first customer gets F score 1 and the last one F score
    4. *)
Theorem frequency_ties_split_by_position (t : list RFMRow) :
  (2 <= List.length t)%nat ->
  (forall A B, In A t -> In B t -> Frequency A = Frequency B) ->
  rank_first (map Frequency t) = map Z.of_nat (seq 1 (List.length t)) /\
  exists f, F_Score t = Ok f /\
    nth_error f 0 = Some (Some 1) /\
    nth_error f (List.length t - 1) = Some (Some 4).
Proof.
  intros Hn Heq.
  assert (Hlen : List.length (map Frequency t) = List.length t) by apply length_map.
  assert (Hties : forall a b, In a (map Frequency t) -> In b (map Frequency t) -> a = b).
  { intros a b Ha Hb. apply in_map_iff in Ha, Hb.
    destruct Ha as (A & <- & HA), Hb as (B & <- & HB). apply Heq; assumption. }
  set (x := map Frequency t) in *.
  assert (Hranks : rank_first x = map Z.of_nat (seq 1 (List.length t))).
  { apply (nth_ext _ _ 0 0).
    - rewrite rank_first_length, length_map, length_seq. assumption.
    - intros i Hi. rewrite rank_first_length, Hlen in Hi.
      rewrite (rank_first_ties x i Hties) by lia.
      change 0 with (Z.of_nat 0). rewrite map_nth, seq_nth by assumption.
      f_equal. lia. }
  split; [exact Hranks|].
  assert (Hne : x <> []) by (destruct x; [simpl in Hlen; lia | discriminate]).
  assert (Hinc := rank_edges_increasing x ltac:(lia)).
  eexists. split; [apply F_Score_Ok; lia|]. fold x.
  assert (H0 : nth_error (rank_first x) 0 = Some 1).
  { rewrite Hranks. destruct (List.length t) as [|n]; [lia | reflexivity]. }
  assert (HN : nth_error (rank_first x) (List.length t - 1)
               = Some (Z.of_nat (List.length t))).
  { rewrite Hranks.
    rewrite (nth_error_nth' _ 0) by (rewrite length_map, length_seq; lia).
    change 0 with (Z.of_nat 0) at 1. rewrite map_nth, seq_nth by lia.
    do 2 f_equal. lia. }
  split.
  - rewrite (map_nth_error _ _ _ H0). do 2 f_equal.
    rewrite bin_id_lowest; [reflexivity|].
    rewrite (rank_quantile x 0 Hne) by lia.
    rewrite Nat.mul_0_r. reflexivity.
  - rewrite (map_nth_error _ _ _ HN). do 2 f_equal.
    change 4 with (Z.of_nat 4). f_equal.
    apply bin_id_unique; [assumption | rewrite bin_edges_length; lia|].
    unfold in_quartile. rewrite bin_edges_4. cbn [nth Nat.sub].
    rewrite !(rank_quantile x) by (assumption || lia). rewrite Hlen.
    unfold Qle, Qlt, inject_Z. cbn [Qnum Qden].
    repeat split; intros; lia.
Qed.

Lemma frequency_ties_split_by_position_witness :
  exists f, F_Score four_alike = Ok f /\
    nth_error f 0 = Some (Some 1) /\ nth_error f 3 = Some (Some 4).
Proof.
  refine (proj2 (frequency_ties_split_by_position four_alike _ _)).
  - simpl. lia.
  - intros A B HA HB. simpl in HA, HB.
    repeat (destruct HA as [<-|HA]); try destruct HA;
      repeat (destruct HB as [<-|HB]); try destruct HB; reflexivity.
Defined.

(** ** Cleaning *)

Section Cleaning.

Lemma option_eqb_refl (A : Type) (eqb : A -> A -> bool) (a : option A) :
  (forall x, eqb x x = true) -> option_eqb eqb a a = true.
Proof. intro H. destruct a; simpl; auto. Qed.

Lemma option_eqb_eq (A : Type) (eqb : A -> A -> bool) (a b : option A) :
  (forall x y, eqb x y = true <-> x = y) ->
  option_eqb eqb a b = true <-> a = b.
Proof.
  intro H. destruct a as [x|], b as [y|]; simpl.
  - rewrite H. split; congruence.
  - split; discriminate.
  - split; discriminate.
  - tauto.
Qed.

Lemma list_eqb_eq (a : list string) :
  forall b, list_eqb String.eqb a b = true <-> a = b.
Proof.
  induction a as [|x a' IH]; intros [|y b']; simpl.
  - tauto.
  - split; discriminate.
  - split; discriminate.
  - rewrite andb_true_iff, String.eqb_eq, IH. split.
    + intros (-> & ->). reflexivity.
    + intro E. injection E as -> ->. tauto.
Qed.

(** Duplicate rows agree on every cell, the prices as numbers. *)
Lemma row_eqb_spec (a b : RawRow) :
  row_eqb a b = true <->
  raw_InvoiceNo a = raw_InvoiceNo b /\
  raw_Description a = raw_Description b /\
  raw_Quantity a = raw_Quantity b /\
  raw_InvoiceDate a = raw_InvoiceDate b /\
  (raw_UnitPrice a == raw_UnitPrice b)%Q /\
  raw_CustomerID a = raw_CustomerID b /\
  raw_Other a = raw_Other b.
Proof.
  unfold row_eqb. rewrite !andb_true_iff.
  rewrite !String.eqb_eq, Z.eqb_eq, Qeq_bool_iff, list_eqb_eq.
  rewrite (option_eqb_eq _ String.eqb) by apply String.eqb_eq.
  rewrite (option_eqb_eq _ Z.eqb) by apply Z.eqb_eq.
  tauto.
Qed.

Lemma row_eqb_refl (a : RawRow) : row_eqb a a = true.
Proof. apply row_eqb_spec. repeat split; reflexivity. Qed.

Lemma row_eqb_sym (a b : RawRow) : row_eqb a b = true -> row_eqb b a = true.
Proof.
  rewrite !row_eqb_spec. intros (H1 & H2 & H3 & H4 & H5 & H6 & H7).
  repeat split; symmetry; assumption.
Qed.

Lemma row_eqb_trans (a b c : RawRow) :
  row_eqb a b = true -> row_eqb b c = true -> row_eqb a c = true.
Proof.
  rewrite !row_eqb_spec.
  intros (H1 & H2 & H3 & H4 & H5 & H6 & H7) (G1 & G2 & G3 & G4 & G5 & G6 & G7).
  repeat split; try congruence. rewrite H5. assumption.
Qed.

Lemma filter_sorted (A : Type) (R : A -> A -> Prop) (p : A -> bool) (l : list A) :
  StronglySorted R l -> StronglySorted R (filter p l).
Proof.
  induction 1 as [|a r Hs IH Ha]; simpl; [constructor|].
  destruct (p a); [|assumption].
  constructor; [assumption|].
  rewrite Forall_forall in *. intros b Hb. apply Ha.
  apply filter_In in Hb. tauto.
Qed.

Lemma drop_duplicates_In (r : RawRow) (df : list RawRow) :
  In r (drop_duplicates df) -> In r df.
Proof.
  induction df as [|a l IH]; simpl; [tauto|].
  intros [H|H]; [left; assumption|].
  apply filter_In in H. right. apply IH, H.
Qed.

Lemma drop_duplicates_distinct (df : list RawRow) :
  StronglySorted (fun a b => row_eqb b a = false) (drop_duplicates df).
Proof.
  induction df as [|a l IH]; simpl; constructor.
  - apply filter_sorted. assumption.
  - rewrite Forall_forall. intros b Hb. apply filter_In in Hb.
    destruct Hb as (_ & Hb). apply negb_true_iff in Hb. assumption.
Qed.

Lemma drop_duplicates_id (df : list RawRow) :
  StronglySorted (fun a b => row_eqb b a = false) df -> drop_duplicates df = df.
Proof.
  induction 1 as [|a l Hs IH Ha]; simpl; [reflexivity|].
  rewrite IH. f_equal. apply filter_all.
  rewrite Forall_forall in Ha. intros b Hb. rewrite (Ha b Hb). reflexivity.
Qed.

(** Every row has an equal row among the rows that are kept. *)
Lemma drop_duplicates_keeps (r : RawRow) (df : list RawRow) :
  In r df -> exists r', In r' (drop_duplicates df) /\ row_eqb r r' = true.
Proof.
  induction df as [|a l IH]; intro Hin; [destruct Hin|]. simpl.
  destruct Hin as [->|Hin].
  - exists r. split; [left; reflexivity | apply row_eqb_refl].
  - destruct (IH Hin) as (r' & Hr' & E).
    destruct (row_eqb r' a) eqn:Ea.
    + exists a. split; [left; reflexivity|].
      apply row_eqb_trans with r'; assumption.
    + exists r'. split; [|assumption].
      right. apply filter_In. split; [assumption|]. rewrite Ea. reflexivity.
Qed.

Lemma clean_rows_valid_aux (df : list RawRow) :
  (forall r, In r (clean df) ->
     notnull (raw_CustomerID r) && notnull (raw_Description r) = true) /\
  StronglySorted (fun a b => row_eqb b a = false) (clean df).
Proof.
  unfold clean. split.
  - intros r Hr. apply filter_In in Hr. destruct Hr as (Hr & _).
    apply drop_duplicates_In, filter_In in Hr. tauto.
  - apply filter_sorted, drop_duplicates_distinct.
Qed.

End Cleaning.

(** X15.  After cleaning, every row is a row of the raw frame with a
    customer and a description, a positive quantity, a positive unit price
    and so a positive total price; no two rows are equal; and every raw row
    with these properties has an equal row in the cleaned frame. *)
Theorem clean_rows_valid (df : list RawRow) :
  (forall r, In r (clean df) ->
     In r df /\ raw_CustomerID r <> None /\ raw_Description r <> None /\
     0 < raw_Quantity r /\ (0 < raw_UnitPrice r)%Q /\ (0 < raw_TotalPrice r)%Q) /\
  StronglySorted (fun a b => row_eqb b a = false) (clean df) /\
  (forall r, In r df ->
     raw_CustomerID r <> None -> raw_Description r <> None ->
     0 < raw_Quantity r -> (0 < raw_UnitPrice r)%Q ->
     exists r', In r' (clean df) /\ row_eqb r r' = true).
Proof.
  unfold clean. split; [|split].
  - intros r Hr. apply filter_In in Hr. destruct Hr as (Hr & Hpos).
    apply drop_duplicates_In, filter_In in Hr. destruct Hr as (Hr & Hnn).
    apply andb_true_iff in Hpos, Hnn.
    destruct Hpos as (Hq & Hp), Hnn as (Hc & Hd).
    apply Z.ltb_lt in Hq. apply Qlt_bool_iff in Hp.
    split; [assumption|].
    split; [destruct (raw_CustomerID r); [discriminate | discriminate]|].
    split; [destruct (raw_Description r); [discriminate | discriminate]|].
    split; [assumption|]. split; [assumption|].
    unfold raw_TotalPrice. apply Qmult_lt_0_compat; [|assumption].
    change 0%Q with (inject_Z 0). rewrite <- Zlt_Qlt. assumption.
  - apply filter_sorted, drop_duplicates_distinct.
  - intros r Hr Hc Hd Hq Hp.
    assert (H1 : In r (filter (fun r => notnull (raw_CustomerID r)
                                        && notnull (raw_Description r)) df)).
    { apply filter_In. split; [assumption|].
      destruct (raw_CustomerID r); [|congruence].
      destruct (raw_Description r); [reflexivity | congruence]. }
    destruct (drop_duplicates_keeps r _ H1) as (r' & Hr' & E).
    exists r'. split; [|assumption].
    apply filter_In. split; [assumption|].
    apply row_eqb_spec in E. destruct E as (_ & _ & Eq & _ & Ep & _).
    apply andb_true_iff. split.
    + apply Z.ltb_lt. lia.
    + apply Qlt_bool_iff. rewrite <- Ep. assumption.
Qed.

(** X16.  Cleaning a cleaned frame changes nothing. *)
Theorem clean_idempotent (df : list RawRow) : clean (clean df) = clean df.
Proof.
  destruct (clean_rows_valid_aux df) as (Hvalid & Hdistinct).
  unfold clean at 1.
  rewrite (filter_all _ _ (clean df)).
  - rewrite (drop_duplicates_id _ Hdistinct).
    apply filter_all. intros r Hr. unfold clean in Hr.
    apply filter_In in Hr. tauto.
  - exact Hvalid.
Qed.

Lemma clean_rows_valid_witness :
  List.length (clean raw_sample) = 1%nat /\
  exists r', In r' (clean raw_sample) /\
    row_eqb (mkRawRow "536365" (Some "LANTERN") 6 "12/1/2010 8:26" (34 # 10)
               (Some 17850) ["UK"])%string r' = true.
Proof.
  split; [reflexivity|].
  destruct (clean_rows_valid raw_sample) as (_ & _ & H).
  apply H.
  - simpl. auto.
  - discriminate.
  - discriminate.
  - reflexivity.
  - reflexivity.
Defined.

(** ** Day names *)

(** X17.  Every transaction gets a day name: the day of the week is a
    number from 0 to 6, [day_map] has a name for it and the plot order lists
    that name; the hour is between 0 and 23; transactions seven days apart
    fall on the same day of the week. *)
Theorem day_name_defined (t : Transaction) :
  0 <= InvoiceDayofweek t <= 6 /\
  0 <= InvoiceHour t <= 23 /\
  (exists name, DayName t = Some name /\ In name day_order) /\
  (forall t', InvoiceDate t' = InvoiceDate t + Timedelta_days 7 ->
     DayName t' = DayName t).
Proof.
  assert (Hd : 0 <= InvoiceDayofweek t < 7)
    by (unfold InvoiceDayofweek; apply Z.mod_pos_bound; reflexivity).
  assert (Hh : 0 <= InvoiceHour t < 24)
    by (unfold InvoiceHour; apply Z.mod_pos_bound; reflexivity).
  split; [lia|]. split; [lia|]. split.
  - unfold DayName.
    assert (Hc : InvoiceDayofweek t = 0 \/ InvoiceDayofweek t = 1 \/
                 InvoiceDayofweek t = 2 \/ InvoiceDayofweek t = 3 \/
                 InvoiceDayofweek t = 4 \/ InvoiceDayofweek t = 5 \/
                 InvoiceDayofweek t = 6) by lia.
    destruct Hc as [E|[E|[E|[E|[E|[E|E]]]]]]; rewrite E;
      eexists; (split; [reflexivity | simpl; tauto]).
  - intros t' Ht'. unfold DayName, InvoiceDayofweek. rewrite Ht'.
    unfold Timedelta_days. rewrite Z.mul_1_l.
    rewrite Z.div_add by discriminate.
    replace (InvoiceDate t / 86400000000000 + 7 + 3)
      with (InvoiceDate t / 86400000000000 + 3 + 1 * 7) by lia.
    rewrite Z.mod_add by discriminate. reflexivity.
Qed.

Lemma day_name_defined_witness :
  DayName (tx 1 "a" 7 1 1) = DayName (tx 1 "a" 0 1 1) /\
  DayName (tx 1 "a" 0 1 1) = Some "Thu"%string.
Proof.
  split; [|reflexivity].
  apply (proj2 (proj2 (proj2 (day_name_defined (tx 1 "a" 0 1 1))))).
  reflexivity.
Defined.

(** ** The steps keep their promises, and the promises fix the result *)

Section Determinism.

Variable mul : Z -> Q -> Q.
Variable sum : list Q -> Q.










End Determinism.

Section RankContract.












End RankContract.

Section CutContract.










End CutContract.



(** ** Revenue and monetary value *)

(** X18.  The monetary value of a customer is the customer's revenue: when
    lines 122-130 return a frame, its customer and monetary columns are the
    revenue series of line 97 before it is sorted, the sorted series holds
    the same entries, and looking a customer up in it gives the monetary
    value of the customer's row.  Both are the same floating point sum over
    the same rows in the same order. *)
Theorem monetary_is_customer_revenue (mul : Z -> Q -> Q) (sum : list Q -> Q)
  (df : list Transaction) (rows : list RFMRow) :
  aggregate_with mul sum df = Ok rows ->
  map (fun r => (rfm_CustomerID r, Monetary r)) rows = group_sum_with mul sum df /\
  Permutation (map (fun r => (rfm_CustomerID r, Monetary r)) rows)
              (customer_revenue_with mul sum df) /\
  forall r, In r rows ->
    lookup (rfm_CustomerID r) (customer_revenue_with mul sum df)
    = Some (Monetary r).
Proof.
  intro Hok.
  assert (E : map (fun r => (rfm_CustomerID r, Monetary r)) rows
              = group_sum_with mul sum df).
  { apply aggregate_with_Ok_inv in Hok.
    destruct Hok as [(-> & ->)|(m & _ & _ & _ & ->)]; [reflexivity|].
    unfold rfm_agg_with, group_sum_with. rewrite map_map.
    apply map_ext. intro g. reflexivity. }
  assert (P : Permutation (map (fun r => (rfm_CustomerID r, Monetary r)) rows)
                          (customer_revenue_with mul sum df)).
  { rewrite E. unfold customer_revenue_with.
    apply Permutation_sym, sort_values_desc_perm. }
  split; [exact E|]. split; [exact P|].
  intros r Hr. apply lookup_In.
  - apply customer_revenue_with_keys_NoDup.
  - apply (Permutation_in _ P).
    apply (in_map (fun r => (rfm_CustomerID r, Monetary r))). exact Hr.
Qed.

Lemma monetary_is_customer_revenue_witness :
  aggregate_with (fun q p => inject_Z q * p)%Q series_sum two_customers
  = Ok (rfm two_customers) /\
  map (fun r => (rfm_CustomerID r, Monetary r)) (rfm two_customers)
  = group_sum two_customers.
Proof.
  assert (E : aggregate_with (fun q p => inject_Z q * p)%Q series_sum two_customers
              = Ok (rfm two_customers)) by (vm_compute; reflexivity).
  split; [exact E|].
  exact (proj1 (monetary_is_customer_revenue
                  (fun q p => inject_Z q * p)%Q series_sum
                  two_customers (rfm two_customers) E)).
Defined.
